(** * The TVBoy bankswitching scheme of Stella (src/emucore/CartTVBoy.cxx)

    A shallow embedding of [CartridgeTVBoy]: the hotspot decoder
    [checkSwitchBank], the self-locking [bank] switch and the save-state
    pair [save]/[load].

    [CartridgeTVBoy] derives from [CartridgeEnhanced] and talks to a
    [Serializer]; neither CartEnhanced.cxx/.hxx, CartTVBoy.hxx nor
    Serializer.hxx is among the sources, so these parts are modelled from the
    specification and marked as such.  Integers are [Z]; the C++ widths are
    written out where a conversion happens. *)

From Stdlib Require Import ZArith Bool List Lia.
Import ListNotations.

Local Open Scope Z_scope.

(** ** Machine integers *)

(** Conversion to [uInt16], as at the call [bank(address & ...)], whose
    argument is an [int] after integer promotion. *)
Definition uInt16 (z : Z) : Z := z mod 65536.

(** ** The save-state stream *)

Module Serializer.

(** Modelled from the spec: the [Serializer] class (Serializer.hxx/.cxx are
    missing).  Section 6: the stream is "an ordered sequence of
    primitive-typed fields (booleans, integers)" without length prefixes.
    Sections 4.5 and 7: a read or a write can fail; the code sees the failure
    as an exception (the [try]/[catch] of [save] and [load]).  A write
    fails when the sink takes no further field, a read fails when the next
    field is missing or is of the other type, and, as for a C++ stream, a
    stream that has failed keeps failing. *)
Inductive field : Type :=
| FBool (b : bool)
| FInt (n : Z).

(** Modelled from the spec: the state of a [Serializer].  Writes append
    to [fields], reads take from its front. *)
Record t : Type := {
  fields : list field;  (* written so far, read from the front *)
  room : nat;           (* fields the sink still accepts *)
  failed : bool         (* sticky failure state *)
}.

(** Modelled from the spec: an operation of the stream either returns a
    value or throws ([None]); the stream is threaded in both cases. *)
Definition result (A : Type) : Type := (option A * t)%type.

(** Modelled from the spec: the stream after a failed operation. *)
Definition fail (s : t) : t :=
  {| fields := fields s; room := room s; failed := true |}.

(** Modelled from the spec: writing one field ([putBool], [putInt]). *)
Definition put (f : field) (s : t) : result unit :=
  if failed s then (None, s)
  else match room s with
       | O => (None, fail s)
       | S r => (Some tt, {| fields := fields s ++ [f]; room := r; failed := false |})
       end.

Definition putBool (b : bool) : t -> result unit := put (FBool b).
Definition putInt (n : Z) : t -> result unit := put (FInt n).

(** Modelled from the spec: reading one field ([getBool], [getInt]). *)
Definition getBool (s : t) : result bool :=
  if failed s then (None, s)
  else match fields s with
       | FBool b :: rest =>
           (Some b, {| fields := rest; room := room s; failed := false |})
       | _ => (None, fail s)
       end.

Definition getInt (s : t) : result Z :=
  if failed s then (None, s)
  else match fields s with
       | FInt n :: rest =>
           (Some n, {| fields := rest; room := room s; failed := false |})
       | _ => (None, fail s)
       end.

(** Modelled from the spec: a new, empty stream that accepts [n] fields. *)
Definition empty (n : nat) : t :=
  {| fields := []; room := n; failed := false |}.

(** Whether an operation threw. *)
Definition threw {A : Type} (r : result A) : bool :=
  match fst r with
  | Some _ => false
  | None => true
  end.

End Serializer.

(** ** The base scheme *)

Module CartridgeEnhanced.

(** Modelled from the spec: [ADDR_MASK], a constant of CartEnhanced.hxx
    (missing).  Section 6: bus addresses are 16-bit values which the scheme
    masks to its own window; the mask keeps the 13 address lines that the
    hotspot bounds 0x1800 and 0x187F of [checkSwitchBank] are compared
    on. *)
Definition ADDR_MASK : Z := 0x1FFF.

(** Modelled from the spec: the bank geometry of CartEnhanced.hxx
    (missing).  Sections 1 and 3: the window, and with it a bank, is 4096
    bytes. *)
Definition myBankShift : Z := 12.

(** Modelled from the spec: the size of a bank, [1 << myBankShift]. *)
Definition bankSize : Z := Z.shiftl 1 myBankShift.

(** Modelled from the spec: the base scheme's part of BankState (section 3),
    [currentBank]. *)
Record t : Type := { myCurrentBank : Z }.

Section WithImage.

(** The size of the ROM image held by the cartridge. *)
Variable mySize : Z.

(** Modelled from the spec: [romBankCount()] of CartEnhanced (missing).
    Glossary: a bank is a fixed-size slice of the image, so the image
    holds [mySize / bankSize] of them. *)
Definition romBankCount : Z := Z.shiftr mySize myBankShift.

(** Modelled from the spec: [CartridgeEnhanced::bank] (CartEnhanced.cxx is
    missing).  Section 3: a bank-select value is "masked/modulo-reduced
    against bankCount before use"; section 4.2: re-selecting the bank that
    is already active is "a no-op returning no change".  The result is
    the "bank changed" flag. *)
Definition bank (bank : Z) (c : t) : bool * t :=
  let romBank := bank mod romBankCount in
  if romBank =? myCurrentBank c then (false, c)
  else (true, {| myCurrentBank := romBank |}).

End WithImage.

(** Modelled from the spec: the base scheme after construction and after
    [reset()] is at bank 0, "the canonical power-on state" (section 4.4). *)
Definition initial : t := {| myCurrentBank := 0 |}.

(** Modelled from the spec: [CartridgeEnhanced::reset] (missing), which
    "restores bank 0" (section 4.4). *)
Definition reset (c : t) : t := initial.

(** Modelled from the spec: [CartridgeEnhanced::save] (missing).
    Section 4.5: every piece of the base's BankState is written in a fixed
    order and read back in the same order; a failure is reported to the
    caller. *)
Definition save (c : t) (out : Serializer.t) : bool * Serializer.t :=
  match Serializer.putInt (myCurrentBank c) out with
  | (Some _, out') => (true, out')
  | (None, out') => (false, out')
  end.

(** Modelled from the spec: [CartridgeEnhanced::load] (missing), the
    counterpart of [save]: the field read replaces the base's state, a
    failed read is reported and leaves it. *)
Definition load (ins : Serializer.t) (c : t) : bool * t * Serializer.t :=
  match Serializer.getInt ins with
  | (Some n, ins') => (true, {| myCurrentBank := n |}, ins')
  | (None, ins') => (false, c, ins')
  end.

End CartridgeEnhanced.

(** ** The TVBoy scheme *)

Module CartridgeTVBoy.

Import CartridgeEnhanced.

(** The object: the base sub-object and the member [myBankingDisabled]
    (the lock). *)
Record t : Type := {
  enhanced : CartridgeEnhanced.t;
  myBankingDisabled : bool
}.

(** The bank shown to the debugger ([currentBankIndex()] of the spec). *)
Definition getBank (s : t) : Z := myCurrentBank (enhanced s).

(** Modelled from the spec: the constructed object.  The constructor body
    (CartTVBoy.cxx:22-26) is empty; the member initialiser of
    [myBankingDisabled] is in CartTVBoy.hxx (missing).  Section 4.2: a
    scheme starts unlocked at bank 0. *)
Definition fresh : t :=
  {| enhanced := CartridgeEnhanced.initial; myBankingDisabled := false |}.

(** Modelled from the spec: [reset()].  CartTVBoy.cxx defines none;
    section 4.4: it "clears locked and restores bank 0". *)
Definition reset (s : t) : t :=
  {| enhanced := CartridgeEnhanced.reset (enhanced s);
     myBankingDisabled := false |}.

(** The hotspot test of [checkSwitchBank] (CartTVBoy.cxx:32). *)
Definition hot (address : Z) : bool :=
  (0x1800 <=? Z.land address ADDR_MASK) && (Z.land address ADDR_MASK <=? 0x187F).

(** What reaches the scheme from outside: a bus access (peek or poke, both
    of which consult [checkSwitchBank]), a direct [bank] call (debugger)
    and [reset]. *)
Inductive event : Type :=
| EvAccess (address value : Z)
| EvBank (k : Z)
| EvReset.

Definition is_reset (ev : event) : bool :=
  match ev with
  | EvReset => true
  | _ => false
  end.

Section WithImage.

Variable mySize : Z.

(** [CartridgeTVBoy::bank] (CartTVBoy.cxx:41-53); the segment argument is
    unused. *)
Definition bank (bank : Z) (s : t) : bool * t :=
  if myBankingDisabled s then (false, s)
  else
    let '(banked, e) := CartridgeEnhanced.bank mySize bank (enhanced s) in
    if banked && negb (bank =? 0)
    then (banked, {| enhanced := e; myBankingDisabled := true |})
    else (banked, {| enhanced := e; myBankingDisabled := myBankingDisabled s |}).

(** [CartridgeTVBoy::checkSwitchBank] (CartTVBoy.cxx:29-38); the second
    parameter has no name in the source. *)
Definition checkSwitchBank (address value : Z) (s : t) : bool * t :=
  if hot address
  then (true, snd (bank (uInt16 (Z.land address (romBankCount mySize - 1))) s))
  else (false, s).

(** The current bank is a bank of the image. *)
Definition bank_in_range (s : t) : Prop :=
  0 <= getBank s < romBankCount mySize.

(** The object after one event, and after a sequence of them. *)
Definition step (s : t) (ev : event) : t :=
  match ev with
  | EvAccess address value => snd (checkSwitchBank address value s)
  | EvBank k => snd (bank k s)
  | EvReset => reset s
  end.

Definition run (evs : list event) (s : t) : t := fold_left step evs s.

End WithImage.

(** [CartridgeTVBoy::save] (CartTVBoy.cxx:56-70).  The result of the base's
    [save] is dropped; [putBool] runs inside the [try]. *)
Definition save (s : t) (out : Serializer.t) : bool * Serializer.t :=
  let '(_, out1) := CartridgeEnhanced.save (enhanced s) out in
  match Serializer.putBool (myBankingDisabled s) out1 with
  | (Some _, out2) => (true, out2)
  | (None, out2) => (false, out2)
  end.

(** [CartridgeTVBoy::load] (CartTVBoy.cxx:73-87).  The base's [load] has
    already written the base sub-object when [getBool] runs; the assignment
    to [myBankingDisabled] happens only if [getBool] returns. *)
Definition load (ins : Serializer.t) (s : t) : bool * t * Serializer.t :=
  let '(_, e, ins1) := CartridgeEnhanced.load ins (enhanced s) in
  match Serializer.getBool ins1 with
  | (Some b, ins2) => (true, {| enhanced := e; myBankingDisabled := b |}, ins2)
  | (None, ins2) =>
      (false, {| enhanced := e; myBankingDisabled := myBankingDisabled s |}, ins2)
  end.

End CartridgeTVBoy.

(** ** Bus accesses to the TVBoy scheme *)

Module TVBoyBus.

Import CartridgeEnhanced CartridgeTVBoy.

(** The bank number of [checkSwitchBank] (CartTVBoy.cxx:34): the argument
    of its [bank] call. *)
Definition selected (mySize address : Z) : Z :=
  uInt16 (Z.land address (romBankCount mySize - 1)).

(** An access (address and data byte) that lies on the hot range and
    selects a bank other than 0. *)
Definition switches (mySize : Z) (access : Z * Z) : bool :=
  hot (fst access) && negb (selected mySize (fst access) =? 0).

(** The bank selected by the first such access of a sequence. *)
Definition first_switch (mySize : Z) (accesses : list (Z * Z)) : option Z :=
  option_map (fun access => selected mySize (fst access))
             (find (switches mySize) accesses).

(** A sequence of accesses as events of the scheme. *)
Definition accesses_events (accesses : list (Z * Z)) : list event :=
  map (fun access => EvAccess (fst access) (snd access)) accesses.

(** The object locked at bank [b]. *)
Definition locked_at (b : Z) : CartridgeTVBoy.t :=
  {| enhanced := {| myCurrentBank := b |}; myBankingDisabled := true |}.

End TVBoyBus.

(** ** The toggle grid of the debugger (src/debugger/gui/ToggleWidget.cxx) *)

Module ToggleWidget.

(** The keys that [handleKeyDown] tells apart (the [case] labels of its
    [switch]); every other key of StellaKeys.hxx is [KBDK_other]. *)
Inductive StellaKey : Type :=
| KBDK_RETURN
| KBDK_KP_ENTER
| KBDK_UP
| KBDK_DOWN
| KBDK_LEFT
| KBDK_RIGHT
| KBDK_PAGEUP
| KBDK_PAGEDOWN
| KBDK_HOME
| KBDK_END
| KBDK_other.

(** The object.  The members of [ToggleWidget] keep their names; of the
    [Widget] and [CommandSender] bases (Widget.hxx and GuiObject.hxx are not
    among the sources) the record keeps what the handlers use: the flag
    behind [isEnabled()], the flag [FLAG_HILITED], the dirty mark set by
    [setDirty()], and the [kItemDataChangedCmd] commands sent so far, each
    with its data argument.  [int] members are [Z]; signed overflow is
    undefined in C++, so nothing wraps. *)
Record t : Type := {
  _rows : Z;
  _cols : Z;
  _currentRow : Z;
  _currentCol : Z;
  _rowHeight : Z;
  _colWidth : Z;
  _selectedItem : Z;
  _clicksToChange : Z;
  _editable : bool;
  _stateList : list bool;
  _changedList : list bool;
  isEnabled : bool;
  hilited : bool;
  dirty : bool;
  sent : list Z
}.

(** The constructor (ToggleWidget.cxx:24-41): [FLAG_ENABLED] is among the
    flags it sets, the lists are empty, the cell sizes are 0 until a derived
    widget sets them. *)
Definition construct (cols rows clicksToChange : Z) : t :=
  {| _rows := rows; _cols := cols; _currentRow := 0; _currentCol := 0;
     _rowHeight := 0; _colWidth := 0; _selectedItem := 0;
     _clicksToChange := clicksToChange; _editable := true;
     _stateList := []; _changedList := [];
     isEnabled := true; hilited := false; dirty := false; sent := [] |}.

(** [setDirty()]. *)
Definition setDirty (w : t) : t :=
  {| _rows := _rows w; _cols := _cols w; _currentRow := _currentRow w;
     _currentCol := _currentCol w; _rowHeight := _rowHeight w;
     _colWidth := _colWidth w; _selectedItem := _selectedItem w;
     _clicksToChange := _clicksToChange w; _editable := _editable w;
     _stateList := _stateList w; _changedList := _changedList w;
     isEnabled := isEnabled w; hilited := hilited w; dirty := true;
     sent := sent w |}.

(** [setFlags(FLAG_HILITED)] and [clearFlags(FLAG_HILITED)]. *)
Definition setHilited (h : bool) (w : t) : t :=
  {| _rows := _rows w; _cols := _cols w; _currentRow := _currentRow w;
     _currentCol := _currentCol w; _rowHeight := _rowHeight w;
     _colWidth := _colWidth w; _selectedItem := _selectedItem w;
     _clicksToChange := _clicksToChange w; _editable := _editable w;
     _stateList := _stateList w; _changedList := _changedList w;
     isEnabled := isEnabled w; hilited := h; dirty := dirty w;
     sent := sent w |}.

(** Assignment to [_currentRow] and [_currentCol]. *)
Definition setCursor (row col : Z) (w : t) : t :=
  {| _rows := _rows w; _cols := _cols w; _currentRow := row;
     _currentCol := col; _rowHeight := _rowHeight w;
     _colWidth := _colWidth w; _selectedItem := _selectedItem w;
     _clicksToChange := _clicksToChange w; _editable := _editable w;
     _stateList := _stateList w; _changedList := _changedList w;
     isEnabled := isEnabled w; hilited := hilited w; dirty := dirty w;
     sent := sent w |}.

(** Assignment to [_selectedItem]. *)
Definition setSelectedItem (item : Z) (w : t) : t :=
  {| _rows := _rows w; _cols := _cols w; _currentRow := _currentRow w;
     _currentCol := _currentCol w; _rowHeight := _rowHeight w;
     _colWidth := _colWidth w; _selectedItem := item;
     _clicksToChange := _clicksToChange w; _editable := _editable w;
     _stateList := _stateList w; _changedList := _changedList w;
     isEnabled := isEnabled w; hilited := hilited w; dirty := dirty w;
     sent := sent w |}.

(** Assignment to the two lists. *)
Definition setLists (state changed : list bool) (w : t) : t :=
  {| _rows := _rows w; _cols := _cols w; _currentRow := _currentRow w;
     _currentCol := _currentCol w; _rowHeight := _rowHeight w;
     _colWidth := _colWidth w; _selectedItem := _selectedItem w;
     _clicksToChange := _clicksToChange w; _editable := _editable w;
     _stateList := state; _changedList := changed;
     isEnabled := isEnabled w; hilited := hilited w; dirty := dirty w;
     sent := sent w |}.

(** [sendCommand(kItemDataChangedCmd, data, _id)]. *)
Definition sendCommand (data : Z) (w : t) : t :=
  {| _rows := _rows w; _cols := _cols w; _currentRow := _currentRow w;
     _currentCol := _currentCol w; _rowHeight := _rowHeight w;
     _colWidth := _colWidth w; _selectedItem := _selectedItem w;
     _clicksToChange := _clicksToChange w; _editable := _editable w;
     _stateList := _stateList w; _changedList := _changedList w;
     isEnabled := isEnabled w; hilited := hilited w; dirty := dirty w;
     sent := sent w ++ [data] |}.

(** [list[i] = !list[i]] on a [BoolArray]; an index outside the list is
    undefined behaviour ([None]). *)
Fixpoint flip_nth (n : nat) (l : list bool) : option (list bool) :=
  match l, n with
  | [], _ => None
  | b :: rest, O => Some (negb b :: rest)
  | b :: rest, S n' => option_map (cons b) (flip_nth n' rest)
  end.

Definition flip_at (i : Z) (l : list bool) : option (list bool) :=
  if i <? 0 then None else flip_nth (Z.to_nat i) l.

(** The three statements that toggle the selected item
    (ToggleWidget.cxx:88-90 and 202-204). *)
Definition toggleSelected (w : t) : option t :=
  match flip_at (_selectedItem w) (_stateList w) with
  | None => None
  | Some state =>
      match flip_at (_selectedItem w) (_changedList w) with
      | None => None
      | Some changed =>
          Some (sendCommand (_selectedItem w) (setLists state changed w))
      end
  end.

(** [ToggleWidget::handleMouseEntered] and [handleMouseLeft]
    (ToggleWidget.cxx:44-55). *)
Definition handleMouseEntered (w : t) : t := setDirty (setHilited true w).
Definition handleMouseLeft (w : t) : t := setDirty (setHilited false w).

(** [ToggleWidget::findItem] (ToggleWidget.cxx:96-105).  [/] on [int]
    truncates towards zero ([Z.quot]); dividing by a zero cell size is
    undefined ([None]). *)
Definition findItem (x y : Z) (w : t) : option Z :=
  if _rowHeight w =? 0 then None
  else
    let row := Z.quot (y - 1) (_rowHeight w) in
    let row := if row >=? _rows w then _rows w - 1 else row in
    if _colWidth w =? 0 then None
    else
      let col := Z.quot x (_colWidth w) in
      let col := if col >=? _cols w then _cols w - 1 else col in
      Some (row * _cols w + col).

(** [ToggleWidget::handleMouseDown] (ToggleWidget.cxx:58-76); the button
    and the click count are not used. *)
Definition handleMouseDown (x y : Z) (w : t) : option t :=
  if negb (isEnabled w) then Some w
  else
    match findItem x y w with
    | None => None
    | Some item =>
        let newSelectedItem :=
          if item >? Z.of_nat (length (_stateList w)) - 1 then -1 else item in
        if negb (_selectedItem w =? newSelectedItem)
        then
          if _cols w =? 0 then None
          else
            let row := Z.quot newSelectedItem (_cols w) in
            let col := newSelectedItem - row * _cols w in
            Some (setDirty (setCursor row col (setSelectedItem newSelectedItem w)))
        else Some w
    end.

(** [ToggleWidget::handleMouseUp] (ToggleWidget.cxx:79-93); the button is
    not used.  [findItem] is only evaluated when the click count matches. *)
Definition handleMouseUp (x y clickCount : Z) (w : t) : option t :=
  if negb (isEnabled w) || negb (_editable w) then Some w
  else if clickCount =? _clicksToChange w
  then
    match findItem x y w with
    | None => None
    | Some item =>
        if _selectedItem w =? item
        then option_map setDirty (toggleSelected w)
        else Some w
    end
  else Some w.

(** The [switch] of [handleKeyDown] (ToggleWidget.cxx:117-194): the values
    of [handled], [dirty] and [toggle] and the new cursor. *)
Definition keyAction (key : StellaKey) (w : t) : bool * bool * bool * Z * Z :=
  let row := _currentRow w in
  let col := _currentCol w in
  match key with
  | KBDK_RETURN | KBDK_KP_ENTER =>
      if (row >=? 0) && (col >=? 0) then (true, true, true, row, col)
      else (true, false, false, row, col)
  | KBDK_UP =>
      if row >? 0 then (true, true, false, row - 1, col)
      else (true, false, false, row, col)
  | KBDK_DOWN =>
      if row <? _rows w - 1 then (true, true, false, row + 1, col)
      else (true, false, false, row, col)
  | KBDK_LEFT =>
      if col >? 0 then (true, true, false, row, col - 1)
      else (true, false, false, row, col)
  | KBDK_RIGHT =>
      if col <? _cols w - 1 then (true, true, false, row, col + 1)
      else (true, false, false, row, col)
  | KBDK_PAGEUP =>
      if row >? 0 then (true, true, false, 0, col)
      else (true, false, false, row, col)
  | KBDK_PAGEDOWN =>
      if row <? _rows w - 1 then (true, true, false, _rows w - 1, col)
      else (true, false, false, row, col)
  | KBDK_HOME =>
      if col >? 0 then (true, true, false, row, 0)
      else (true, false, false, row, col)
  | KBDK_END =>
      if col <? _cols w - 1 then (true, true, false, row, _cols w - 1)
      else (true, false, false, row, col)
  | KBDK_other => (false, false, false, row, col)
  end.

(** [ToggleWidget::handleKeyDown] (ToggleWidget.cxx:108-211).  The two
    booleans are [StellaModTest::isControl(mod)] and
    [StellaModTest::isAlt(mod)]. *)
Definition handleKeyDown (key : StellaKey) (isControl isAlt : bool) (w : t)
  : option (bool * t) :=
  if isControl || isAlt then Some (true, w)
  else
    let '(handled, isDirty, toggle, row, col) := keyAction key w in
    let w1 := setCursor row col w in
    if isDirty
    then
      let w2 := setSelectedItem (row * _cols w + col) w1 in
      if toggle && _editable w
      then option_map (fun w3 => (handled, setDirty w3)) (toggleSelected w2)
      else Some (handled, setDirty w2)
    else Some (handled, w1).

Section WithCommands.

(** [GuiObject::kSetPositionCmd], a constant of GuiObject.hxx (missing). *)
Variable kSetPositionCmd : Z.

(** [ToggleWidget::handleCommand] (ToggleWidget.cxx:214-225); the sender
    and the id are not used. *)
Definition handleCommand (cmd data : Z) (w : t) : t :=
  if cmd =? kSetPositionCmd
  then
    if negb (_selectedItem w =? data)
    then setDirty (setSelectedItem data w)
    else w
  else w.

(** What reaches the widget. *)
Inductive event : Type :=
| MouseEntered
| MouseLeft
| MouseDown (x y : Z)
| MouseUp (x y clickCount : Z)
| KeyDown (key : StellaKey) (isControl isAlt : bool)
| Command (cmd data : Z).

Definition step (w : t) (ev : event) : option t :=
  match ev with
  | MouseEntered => Some (handleMouseEntered w)
  | MouseLeft => Some (handleMouseLeft w)
  | MouseDown x y => handleMouseDown x y w
  | MouseUp x y clickCount => handleMouseUp x y clickCount w
  | KeyDown key isControl isAlt =>
      option_map snd (handleKeyDown key isControl isAlt w)
  | Command cmd data => Some (handleCommand cmd data w)
  end.

Fixpoint run (evs : list event) (w : t) : option t :=
  match evs with
  | [] => Some w
  | ev :: rest =>
      match step w ev with
      | None => None
      | Some w' => run rest w'
      end
  end.

(** Pointer events whose position lies in the widget's own coordinates,
    right of and below its origin. *)
Definition pointer_inside (ev : event) : bool :=
  match ev with
  | MouseDown x y => (0 <=? x) && (1 <=? y)
  | MouseUp x y _ => (0 <=? x) && (1 <=? y)
  | _ => true
  end.

End WithCommands.

(** The grid has cells, the cell sizes are set, and both lists cover the
    grid. *)
Definition laid_out (w : t) : Prop :=
  0 < _rows w /\ 0 < _cols w /\ 0 < _rowHeight w /\ 0 < _colWidth w /\
  _rows w * _cols w <= Z.of_nat (length (_stateList w)) /\
  _rows w * _cols w <= Z.of_nat (length (_changedList w)).

(** The cursor is not beyond the last row or column. *)
Definition cursor_bounded (w : t) : Prop :=
  _currentRow w < _rows w /\ _currentCol w < _cols w.

(** The two keys that toggle. *)
Definition is_enter (key : StellaKey) : bool :=
  match key with
  | KBDK_RETURN | KBDK_KP_ENTER => true
  | _ => false
  end.

(** A grid of 2 rows and 8 columns with cells of 12 by 10 pixels, all
    entries clear, as a derived widget sets it up. *)
Definition grid_2x8 : t :=
  {| _rows := 2; _cols := 8; _currentRow := 0; _currentCol := 0;
     _rowHeight := 10; _colWidth := 12; _selectedItem := 0;
     _clicksToChange := 1; _editable := true;
     _stateList := repeat false 16; _changedList := repeat false 16;
     isEnabled := true; hilited := false; dirty := false; sent := [] |}.

(** Two states of one widget: same grid, same cell sizes, same settings,
    lists of the same lengths. *)
Definition same_widget (w w' : t) : Prop :=
  _rows w' = _rows w /\ _cols w' = _cols w /\
  _rowHeight w' = _rowHeight w /\ _colWidth w' = _colWidth w /\
  _clicksToChange w' = _clicksToChange w /\ _editable w' = _editable w /\
  isEnabled w' = isEnabled w /\
  length (_stateList w') = length (_stateList w) /\
  length (_changedList w') = length (_changedList w).

End ToggleWidget.

(** * Properties *)

Import CartridgeEnhanced CartridgeTVBoy.

(** ** Arithmetic of the bank mask *)

(** Masking with a non-negative value stays below that value, whatever the
    other operand is. *)
Lemma land_le_mask (a m : Z) : 0 <= m -> 0 <= Z.land a m <= m.
Proof.
  intros Hm. split.
  - apply Z.land_nonneg. now right.
  - assert (Hdisj : Z.land (Z.ldiff m a) (Z.land m a) = 0).
    { apply Z.bits_inj'. intros n Hn.
      rewrite !Z.land_spec, Z.ldiff_spec, Z.bits_0.
      now destruct (Z.testbit m n), (Z.testbit a n). }
    assert (Hsum : Z.ldiff m a + Z.land m a = m).
    { rewrite Z.add_nocarry_lxor by exact Hdisj.
      rewrite Z.lxor_lor by exact Hdisj.
      apply Z.lor_ldiff_and. }
    assert (0 <= Z.ldiff m a) by (apply Z.ldiff_nonneg; now left).
    rewrite (Z.land_comm a m). lia.
Qed.

Lemma bankSize_value : bankSize = 4096.
Proof. reflexivity. Qed.

Lemma romBankCount_div (mySize : Z) : romBankCount mySize = mySize / 4096.
Proof.
  unfold romBankCount, myBankShift. now rewrite Z.shiftr_div_pow2 by lia.
Qed.

Lemma romBankCount_pos (mySize : Z) : bankSize <= mySize -> 0 < romBankCount mySize.
Proof.
  rewrite bankSize_value, romBankCount_div. intros H.
  apply Z.div_str_pos. lia.
Qed.

Lemma romBankCount_fits (mySize : Z) : romBankCount mySize * bankSize <= mySize.
Proof.
  rewrite bankSize_value, romBankCount_div.
  rewrite Z.mul_comm. apply Z.mul_div_le. lia.
Qed.

(** The bank number that [checkSwitchBank] hands to [bank] is a bank of the
    image. *)
Lemma selected_in_range (mySize address : Z) :
  0 < romBankCount mySize ->
  0 <= uInt16 (Z.land address (romBankCount mySize - 1)) < romBankCount mySize.
Proof.
  intros Hpos.
  pose proof (land_le_mask address (romBankCount mySize - 1) ltac:(lia)) as Hm.
  unfold uInt16.
  pose proof (Z.mod_pos_bound (Z.land address (romBankCount mySize - 1)) 65536 ltac:(lia)).
  pose proof (Z.mod_le (Z.land address (romBankCount mySize - 1)) 65536 ltac:(lia) ltac:(lia)).
  lia.
Qed.

(** With a power-of-two bank count the mask is a remainder. *)
Lemma land_pow2_mask (a e : Z) : 0 <= e -> Z.land a (2 ^ e - 1) = a mod 2 ^ e.
Proof.
  intros He. replace (2 ^ e - 1) with (Z.ones e).
  - now apply Z.land_ones.
  - rewrite Z.ones_equiv. lia.
Qed.

Lemma pow2_divides (e n : Z) : 0 <= e <= n -> (2 ^ e | 2 ^ n).
Proof.
  intros H. exists (2 ^ (n - e)).
  rewrite <- Z.pow_add_r by lia. f_equal. lia.
Qed.

Lemma masked_address_mod (address e : Z) :
  0 <= e <= 13 ->
  Z.land address ADDR_MASK mod 2 ^ e = address mod 2 ^ e.
Proof.
  intros He. change ADDR_MASK with (2 ^ 13 - 1).
  rewrite land_pow2_mask by lia.
  apply Z.mod_mod_divide. now apply pow2_divides.
Qed.

(** ** The lock *)

Lemma bank_locked (mySize k : Z) (s : CartridgeTVBoy.t) :
  myBankingDisabled s = true -> CartridgeTVBoy.bank mySize k s = (false, s).
Proof. intros H. unfold CartridgeTVBoy.bank. now rewrite H. Qed.

Lemma checkSwitchBank_locked (mySize address value : Z) (s : CartridgeTVBoy.t) :
  myBankingDisabled s = true ->
  checkSwitchBank mySize address value s = (hot address, s).
Proof.
  intros H. unfold checkSwitchBank.
  destruct (hot address); [| reflexivity].
  now rewrite bank_locked.
Qed.

Lemma step_locked (mySize : Z) (s : CartridgeTVBoy.t) (ev : event) :
  myBankingDisabled s = true -> is_reset ev = false -> step mySize s ev = s.
Proof.
  intros H Hev. destruct ev as [address value | k |]; simpl in *.
  - now rewrite checkSwitchBank_locked.
  - now rewrite bank_locked.
  - discriminate.
Qed.

Lemma run_locked (mySize : Z) (evs : list event) (s : CartridgeTVBoy.t) :
  myBankingDisabled s = true ->
  forallb (fun ev => negb (is_reset ev)) evs = true ->
  run mySize evs s = s.
Proof.
  intros Hlock. unfold run.
  induction evs as [| ev evs IH]; simpl; intros Hevs; [reflexivity |].
  apply andb_prop in Hevs as [Hev Hrest].
  apply negb_true_iff in Hev.
  rewrite step_locked by assumption. now apply IH.
Qed.

(** C10. The data byte of an access plays no part in bank selection:
    [checkSwitchBank] gives the same result and the same state for any two
    values at the same address. *)
Theorem checkSwitchBank_ignores_value
  (mySize address v1 v2 : Z) (s : CartridgeTVBoy.t) :
  checkSwitchBank mySize address v1 s = checkSwitchBank mySize address v2 s.
Proof. reflexivity. Qed.

(** C2. Once [myBankingDisabled] is set, a direct [bank] call reports false
    and leaves the object as it is, a hotspot access is still recognised
    ([checkSwitchBank] returns true exactly on the hot range) and leaves the
    object as it is, and so does every sequence of accesses and [bank]
    calls: the current bank never moves. *)
Theorem locked_bank_never_changes (mySize : Z) (s : CartridgeTVBoy.t) :
  myBankingDisabled s = true ->
  (forall k, CartridgeTVBoy.bank mySize k s = (false, s)) /\
  (forall address value,
      checkSwitchBank mySize address value s = (hot address, s)) /\
  (forall evs,
      forallb (fun ev => negb (is_reset ev)) evs = true ->
      run mySize evs s = s /\ getBank (run mySize evs s) = getBank s).
Proof.
  intros Hlock. split; [| split].
  - intros k. now apply bank_locked.
  - intros address value. now apply checkSwitchBank_locked.
  - intros evs Hevs. rewrite (run_locked mySize evs s Hlock Hevs). now split.
Qed.

Lemma locked_bank_never_changes_witness :
  let s := snd (checkSwitchBank (512 * 1024) 0x1803 0 fresh) in
  myBankingDisabled s = true /\
  getBank s = 3 /\
  checkSwitchBank (512 * 1024) 0x1805 0 s = (true, s) /\
  getBank (run (512 * 1024) [EvAccess 0x1805 0; EvBank 5; EvAccess 0xF87F 255] s) = 3.
Proof.
  split; [reflexivity |]. split; [reflexivity |]. split.
  - apply (proj1 (proj2 (locked_bank_never_changes (512 * 1024)
             (snd (checkSwitchBank (512 * 1024) 0x1803 0 fresh)) eq_refl))).
  - apply (proj2 (proj2 (locked_bank_never_changes (512 * 1024)
             (snd (checkSwitchBank (512 * 1024) 0x1803 0 fresh)) eq_refl))
             [EvAccess 0x1805 0; EvBank 5; EvAccess 0xF87F 255] eq_refl).
Defined.

(** ** The first switch *)

Lemma bank_unlocked (mySize k : Z) (s : CartridgeTVBoy.t) :
  myBankingDisabled s = false ->
  CartridgeTVBoy.bank mySize k s =
    (fst (CartridgeEnhanced.bank mySize k (enhanced s)),
     {| enhanced := snd (CartridgeEnhanced.bank mySize k (enhanced s));
        myBankingDisabled :=
          fst (CartridgeEnhanced.bank mySize k (enhanced s)) && negb (k =? 0) |}).
Proof.
  intros H. unfold CartridgeTVBoy.bank. rewrite H.
  destruct (CartridgeEnhanced.bank mySize k (enhanced s)) as [banked e]. simpl.
  now destruct (banked && negb (k =? 0)).
Qed.

Lemma enhanced_bank_getBank (mySize k : Z) (c : CartridgeEnhanced.t) :
  myCurrentBank (snd (CartridgeEnhanced.bank mySize k c)) = k mod romBankCount mySize.
Proof.
  unfold CartridgeEnhanced.bank.
  destruct (k mod romBankCount mySize =? myCurrentBank c) eqn:E; simpl.
  - apply Z.eqb_eq in E. now symmetry.
  - reflexivity.
Qed.

(** C1. From the constructed object (unlocked, bank 0): a [bank k] call with
    [k] non-zero that performs a switch sets [myBankingDisabled] in the same
    call, and for a bank [k] of the image other than 0 the call does switch,
    to [k]; [bank 0] goes through the base's switch, stays at bank 0 and
    leaves [myBankingDisabled] false. *)
Theorem first_switch_locks (mySize : Z) :
  (forall k,
      k <> 0 ->
      fst (CartridgeTVBoy.bank mySize k fresh) = true ->
      myBankingDisabled (snd (CartridgeTVBoy.bank mySize k fresh)) = true /\
      getBank (snd (CartridgeTVBoy.bank mySize k fresh)) = k mod romBankCount mySize) /\
  (forall k,
      0 < k < romBankCount mySize ->
      CartridgeTVBoy.bank mySize k fresh =
        (true, {| enhanced := {| myCurrentBank := k |}; myBankingDisabled := true |})) /\
  CartridgeTVBoy.bank mySize 0 fresh =
    (fst (CartridgeEnhanced.bank mySize 0 (enhanced fresh)),
     {| enhanced := snd (CartridgeEnhanced.bank mySize 0 (enhanced fresh));
        myBankingDisabled := false |}) /\
  getBank (snd (CartridgeTVBoy.bank mySize 0 fresh)) = 0 /\
  myBankingDisabled (snd (CartridgeTVBoy.bank mySize 0 fresh)) = false.
Proof.
  split; [| split; [| split; [| split]]].
  - intros k Hk Hbanked.
    rewrite bank_unlocked in * by reflexivity. simpl in *.
    rewrite Hbanked. split.
    + apply Z.eqb_neq in Hk. now rewrite Hk.
    + apply enhanced_bank_getBank.
  - intros k Hk.
    rewrite bank_unlocked by reflexivity.
    unfold CartridgeEnhanced.bank. simpl.
    rewrite Z.mod_small by lia.
    destruct (k =? 0) eqn:E; [apply Z.eqb_eq in E; lia |].
    reflexivity.
  - now rewrite bank_unlocked by reflexivity.
  - rewrite bank_unlocked by reflexivity. unfold getBank.
    cbn [snd enhanced]. rewrite enhanced_bank_getBank. apply Zmod_0_l.
  - rewrite bank_unlocked by reflexivity. cbn [snd myBankingDisabled].
    apply andb_false_r.
Qed.

Lemma first_switch_locks_witness :
  CartridgeTVBoy.bank (512 * 1024) 3 fresh =
    (true, {| enhanced := {| myCurrentBank := 3 |}; myBankingDisabled := true |}) /\
  myBankingDisabled (snd (CartridgeTVBoy.bank (512 * 1024) 3 fresh)) = true.
Proof.
  split.
  - apply (proj1 (proj2 (first_switch_locks (512 * 1024))) 3). vm_compute. now split.
  - apply (proj1 (first_switch_locks (512 * 1024)) 3); [lia | reflexivity].
Defined.

(** ** The hotspot decoder *)

Lemma hot_iff (address : Z) :
  hot address = true <-> 0x1800 <= Z.land address ADDR_MASK <= 0x187F.
Proof.
  unfold hot. rewrite andb_true_iff, !Z.leb_le. tauto.
Qed.

Lemma selected_pow2 (mySize e address : Z) :
  0 <= e <= 11 ->
  romBankCount mySize = 2 ^ e ->
  uInt16 (Z.land address (romBankCount mySize - 1)) =
    Z.land address ADDR_MASK mod romBankCount mySize.
Proof.
  intros He Hcount. rewrite Hcount.
  rewrite land_pow2_mask, masked_address_mod by lia.
  unfold uInt16. apply Z.mod_small.
  pose proof (Z.mod_pos_bound address (2 ^ e) ltac:(lia)).
  assert (2 ^ e <= 2 ^ 11) by (apply Z.pow_le_mono_r; lia).
  lia.
Qed.




(** ** The bank invariant *)

Lemma bank_keeps_range (mySize k : Z) (s : CartridgeTVBoy.t) :
  0 < romBankCount mySize ->
  bank_in_range mySize s ->
  bank_in_range mySize (snd (CartridgeTVBoy.bank mySize k s)).
Proof.
  intros Hpos Hs. unfold bank_in_range, getBank.
  destruct (myBankingDisabled s) eqn:Hlock.
  - now rewrite bank_locked.
  - rewrite bank_unlocked by assumption. cbn [snd enhanced].
    rewrite enhanced_bank_getBank. now apply Z.mod_pos_bound.
Qed.

Lemma step_keeps_range (mySize : Z) (s : CartridgeTVBoy.t) (ev : event) :
  0 < romBankCount mySize ->
  bank_in_range mySize s ->
  bank_in_range mySize (step mySize s ev).
Proof.
  intros Hpos Hs. destruct ev as [address value | k |]; simpl.
  - unfold checkSwitchBank. destruct (hot address); simpl; [| assumption].
    now apply bank_keeps_range.
  - now apply bank_keeps_range.
  - unfold bank_in_range, getBank. simpl. lia.
Qed.

Lemma run_keeps_range (mySize : Z) (evs : list event) :
  0 < romBankCount mySize ->
  forall s, bank_in_range mySize s -> bank_in_range mySize (run mySize evs s).
Proof.
  intros Hpos. unfold run.
  induction evs as [| ev evs IH]; simpl; intros s Hs; [assumption |].
  apply IH. now apply step_keeps_range.
Qed.

Lemma fresh_in_range (mySize : Z) :
  0 < romBankCount mySize -> bank_in_range mySize fresh.
Proof. intros Hpos. unfold bank_in_range, getBank. simpl. lia. Qed.

(** C4. Whatever accesses, [bank] calls (with any argument) and resets
    the object has been through since construction, its current bank is a
    bank of the image, so the bank's slice lies inside the image; and the
    number that [checkSwitchBank] passes on, masked with
    [romBankCount() - 1], is itself a bank of the image for every address.
    The image holds at least one bank. *)
Theorem current_bank_in_range (mySize : Z) (evs : list event) :
  bankSize <= mySize ->
  (forall address,
      0 <= uInt16 (Z.land address (romBankCount mySize - 1)) < romBankCount mySize) /\
  0 <= getBank (run mySize evs fresh) < romBankCount mySize /\
  getBank (run mySize evs fresh) * bankSize + bankSize <= mySize.
Proof.
  intros Hsize.
  pose proof (romBankCount_pos mySize Hsize) as Hpos.
  assert (Hrange : bank_in_range mySize (run mySize evs fresh))
    by (apply run_keeps_range; [assumption | now apply fresh_in_range]).
  split; [| split].
  - intros address. now apply selected_in_range.
  - exact Hrange.
  - pose proof (romBankCount_fits mySize) as Hfit.
    unfold bank_in_range in Hrange. rewrite bankSize_value in *. nia.
Qed.

Lemma current_bank_in_range_witness :
  let evs := [EvAccess 0x1800 0; EvBank 200; EvReset; EvAccess 0xFFFF 7; EvAccess 0x187F 1;
              EvAccess 0x1801 2] in
  0 <= getBank (run (32 * 1024) evs fresh) < romBankCount (32 * 1024) /\
  getBank (run (32 * 1024) evs fresh) * bankSize + bankSize <= 32 * 1024.
Proof.
  assert (Hsize : bankSize <= 32 * 1024) by (vm_compute; discriminate).
  apply (proj2 (current_bank_in_range (32 * 1024)
                  [EvAccess 0x1800 0; EvBank 200; EvReset; EvAccess 0xFFFF 7;
                   EvAccess 0x187F 1; EvAccess 0x1801 2] Hsize)).
Defined.

(** ** Re-selecting the active bank *)

Lemma enhanced_bank_same (mySize : Z) (c : CartridgeEnhanced.t) :
  0 <= myCurrentBank c < romBankCount mySize ->
  CartridgeEnhanced.bank mySize (myCurrentBank c) c = (false, c).
Proof.
  intros H. unfold CartridgeEnhanced.bank.
  rewrite Z.mod_small by assumption. now rewrite Z.eqb_refl.
Qed.

Lemma bank_same (mySize : Z) (s : CartridgeTVBoy.t) :
  bank_in_range mySize s ->
  CartridgeTVBoy.bank mySize (getBank s) s = (false, s).
Proof.
  intros Hs. destruct (myBankingDisabled s) eqn:Hlock.
  - now apply bank_locked.
  - rewrite bank_unlocked by assumption. unfold getBank.
    rewrite enhanced_bank_same by exact Hs. simpl.
    destruct s as [c l]. simpl in *. now subst l.
Qed.

(** C9. In every state reached from construction by accesses, [bank]
    calls and resets, [bank] with the bank that is already active reports
    no change and leaves the whole object, the lock included, as it is;
    the same holds however often it is repeated. *)
Theorem reselect_active_bank_is_noop (mySize : Z) (evs : list event) :
  bankSize <= mySize ->
  let s := run mySize evs fresh in
  CartridgeTVBoy.bank mySize (getBank s) s = (false, s) /\
  forall n : nat,
    run mySize (repeat (EvBank (getBank s)) n) s = s.
Proof.
  intros Hsize s.
  pose proof (romBankCount_pos mySize Hsize) as Hpos.
  assert (Hrange : bank_in_range mySize s)
    by (apply run_keeps_range; [assumption | now apply fresh_in_range]).
  split; [now apply bank_same |].
  induction n as [| n IH]; simpl; [reflexivity |].
  unfold run in *. simpl. rewrite bank_same by assumption. exact IH.
Qed.

Lemma reselect_active_bank_is_noop_witness :
  let s := run (512 * 1024) [EvAccess 0x1800 0; EvAccess 0x1845 0] fresh in
  getBank s = 69 /\
  CartridgeTVBoy.bank (512 * 1024) (getBank s) s = (false, s) /\
  CartridgeTVBoy.bank (512 * 1024) (getBank fresh) fresh = (false, fresh).
Proof.
  split; [reflexivity |]. split.
  - apply (proj1 (reselect_active_bank_is_noop (512 * 1024)
                    [EvAccess 0x1800 0; EvAccess 0x1845 0] ltac:(vm_compute; discriminate))).
  - apply (proj1 (reselect_active_bank_is_noop (512 * 1024) []
                    ltac:(vm_compute; discriminate))).
Defined.

(** ** Reset *)

(** C5. [reset] on any object, locked or not, gives the power-on state:
    [myBankingDisabled] false and bank 0.  Switching works again
    afterwards: [bank k] for a bank [k] of the image other than 0 switches
    to [k], and a hotspot access selects the bank that its address
    encodes. *)
Theorem reset_unlocks (mySize : Z) (s : CartridgeTVBoy.t) :
  myBankingDisabled (CartridgeTVBoy.reset s) = false /\
  getBank (CartridgeTVBoy.reset s) = 0 /\
  (forall k,
      0 < k < romBankCount mySize ->
      CartridgeTVBoy.bank mySize k (CartridgeTVBoy.reset s) =
        (true, {| enhanced := {| myCurrentBank := k |}; myBankingDisabled := true |})) /\
  (forall address value,
      0 < romBankCount mySize ->
      hot address = true ->
      getBank (snd (checkSwitchBank mySize address value (CartridgeTVBoy.reset s))) =
        uInt16 (Z.land address (romBankCount mySize - 1))).
Proof.
  split; [reflexivity | split; [reflexivity | split]].
  - intros k Hk. rewrite bank_unlocked by reflexivity.
    unfold CartridgeEnhanced.bank. simpl.
    rewrite Z.mod_small by lia.
    destruct (k =? 0) eqn:E; [apply Z.eqb_eq in E; lia |].
    reflexivity.
  - intros address value Hpos Hhot. unfold checkSwitchBank. rewrite Hhot.
    rewrite bank_unlocked by reflexivity. unfold getBank. cbn [snd enhanced].
    rewrite enhanced_bank_getBank. apply Z.mod_small.
    now apply selected_in_range.
Qed.

Lemma reset_unlocks_witness :
  let s := run (512 * 1024) [EvAccess 0x1803 0] fresh in
  myBankingDisabled s = true /\
  getBank s = 3 /\
  myBankingDisabled (CartridgeTVBoy.reset s) = false /\
  getBank (CartridgeTVBoy.reset s) = 0 /\
  getBank (snd (checkSwitchBank (512 * 1024) 0x1805 0 (CartridgeTVBoy.reset s))) = 5.
Proof.
  split; [reflexivity |]. split; [reflexivity |].
  split; [apply (proj1 (reset_unlocks (512 * 1024) _)) |].
  split; [apply (proj1 (proj2 (reset_unlocks (512 * 1024) _))) |].
  apply (proj2 (proj2 (proj2 (reset_unlocks (512 * 1024)
           (run (512 * 1024) [EvAccess 0x1803 0] fresh)))) 0x1805 0);
    reflexivity.
Defined.

(** ** Save states *)

Lemma put_threw_failed (f : Serializer.field) (st : Serializer.t) :
  Serializer.threw (Serializer.put f st) = true ->
  Serializer.failed (snd (Serializer.put f st)) = true.
Proof.
  unfold Serializer.threw, Serializer.put.
  destruct (Serializer.failed st) eqn:F; simpl; [intros _; exact F |].
  destruct (Serializer.room st); simpl; [reflexivity | discriminate].
Qed.

Lemma put_failed (f : Serializer.field) (st : Serializer.t) :
  Serializer.failed st = true -> Serializer.threw (Serializer.put f st) = true.
Proof. intros F. unfold Serializer.threw, Serializer.put. now rewrite F. Qed.

Lemma getInt_threw_failed (st : Serializer.t) :
  Serializer.threw (Serializer.getInt st) = true ->
  Serializer.failed (snd (Serializer.getInt st)) = true.
Proof.
  unfold Serializer.threw, Serializer.getInt.
  destruct (Serializer.failed st) eqn:F; simpl; [intros _; exact F |].
  destruct (Serializer.fields st) as [| [b | n] rest]; simpl;
    solve [reflexivity | discriminate].
Qed.

Lemma getBool_failed (st : Serializer.t) :
  Serializer.failed st = true -> Serializer.threw (Serializer.getBool st) = true.
Proof. intros F. unfold Serializer.threw, Serializer.getBool. now rewrite F. Qed.

(** The base's [save] and [load] report exactly the failure of their stream
    operation and pass the stream on as that operation left it. *)
Lemma enhanced_save_spec (c : CartridgeEnhanced.t) (out : Serializer.t) :
  CartridgeEnhanced.save c out =
    (negb (Serializer.threw (Serializer.putInt (myCurrentBank c) out)),
     snd (Serializer.putInt (myCurrentBank c) out)).
Proof.
  unfold CartridgeEnhanced.save, Serializer.threw.
  now destruct (Serializer.putInt (myCurrentBank c) out) as [[u |] out'].
Qed.

Lemma enhanced_load_stream (ins : Serializer.t) (c : CartridgeEnhanced.t) :
  fst (fst (CartridgeEnhanced.load ins c)) = negb (Serializer.threw (Serializer.getInt ins)) /\
  snd (CartridgeEnhanced.load ins c) = snd (Serializer.getInt ins).
Proof.
  unfold CartridgeEnhanced.load, Serializer.threw.
  now destruct (Serializer.getInt ins) as [[n |] ins'].
Qed.

Lemma save_spec (s : CartridgeTVBoy.t) (out : Serializer.t) :
  fst (CartridgeTVBoy.save s out) =
    negb (Serializer.threw
            (Serializer.putBool (myBankingDisabled s)
               (snd (CartridgeEnhanced.save (enhanced s) out)))).
Proof.
  unfold CartridgeTVBoy.save, Serializer.threw.
  destruct (CartridgeEnhanced.save (enhanced s) out) as [r out1]. simpl.
  now destruct (Serializer.putBool (myBankingDisabled s) out1) as [[u |] out2].
Qed.

Lemma load_spec (ins : Serializer.t) (s : CartridgeTVBoy.t) :
  let base := CartridgeEnhanced.load ins (enhanced s) in
  fst (fst (CartridgeTVBoy.load ins s)) =
    negb (Serializer.threw (Serializer.getBool (snd base))) /\
  enhanced (snd (fst (CartridgeTVBoy.load ins s))) = snd (fst base) /\
  myBankingDisabled (snd (fst (CartridgeTVBoy.load ins s))) =
    match fst (Serializer.getBool (snd base)) with
    | Some b => b
    | None => myBankingDisabled s
    end.
Proof.
  unfold CartridgeTVBoy.load, Serializer.threw.
  destruct (CartridgeEnhanced.load ins (enhanced s)) as [[r e] ins1]. simpl.
  now destruct (Serializer.getBool ins1) as [[b |] ins2].
Qed.

(** C6. Saving any object to an empty stream with room for its two fields
    succeeds, and loading that stream into a freshly constructed object
    succeeds and reproduces the saved current bank and the saved
    [myBankingDisabled] (indeed the whole object). *)
Theorem save_load_roundtrip (s : CartridgeTVBoy.t) (n : nat) :
  let saved := CartridgeTVBoy.save s (Serializer.empty (2 + n)) in
  let loaded := CartridgeTVBoy.load (snd saved) fresh in
  fst saved = true /\
  fst (fst loaded) = true /\
  getBank (snd (fst loaded)) = getBank s /\
  myBankingDisabled (snd (fst loaded)) = myBankingDisabled s /\
  snd (fst loaded) = s.
Proof.
  destruct s as [[c] l]. cbv zeta. repeat split.
Qed.

(** A failed [load] can leave the new bank of the stream next to the old
    lock: the stream holds the base's field and then ends. *)
Lemma load_failure_mixes_old_and_new :
  let ins := {| Serializer.fields := [Serializer.FInt 3];
                Serializer.room := 0;
                Serializer.failed := false |} in
  let s := {| enhanced := {| myCurrentBank := 5 |}; myBankingDisabled := true |} in
  Serializer.threw
    (Serializer.getBool (snd (CartridgeEnhanced.load ins (enhanced s)))) = true /\
  fst (fst (CartridgeTVBoy.load ins s)) = false /\
  snd (fst (CartridgeTVBoy.load ins s)) =
    {| enhanced := {| myCurrentBank := 3 |}; myBankingDisabled := true |} /\
  snd (fst (CartridgeTVBoy.load ins s)) <> s.
Proof.
  cbv zeta. repeat split. discriminate.
Qed.

(** A failed read makes [load] report the failure: a stream that failed in
    the base's read is still failed when the lock flag is read. *)
Lemma load_reports_read_failure (ins : Serializer.t) (s : CartridgeTVBoy.t) :
  fst (fst (CartridgeTVBoy.load ins s)) = false <->
  Serializer.threw (Serializer.getInt ins) = true \/
  Serializer.threw (Serializer.getBool (snd (Serializer.getInt ins))) = true.
Proof.
  destruct (load_spec ins s) as (Hload & _ & _).
  destruct (enhanced_load_stream ins (enhanced s)) as (_ & Hstream).
  cbv zeta in Hload. rewrite Hstream in Hload.
  rewrite Hload, negb_false_iff. split; [now right |].
  intros [H | H]; [| exact H].
  now apply getBool_failed, getInt_threw_failed.
Qed.

(** C7 (amended). When a read fails during [load], [load] returns false and
    [myBankingDisabled] has the value it had before the call; the base
    sub-object is whatever the base's [load] left.  So the object is exactly
    as before if the base's own read failed, and it already carries the
    current bank of the stream if only the read of the lock flag failed. *)
Theorem load_failure_state (ins : Serializer.t) (s : CartridgeTVBoy.t) :
  Serializer.threw (Serializer.getInt ins) = true \/
  Serializer.threw (Serializer.getBool (snd (Serializer.getInt ins))) = true ->
  fst (fst (CartridgeTVBoy.load ins s)) = false /\
  myBankingDisabled (snd (fst (CartridgeTVBoy.load ins s))) = myBankingDisabled s /\
  enhanced (snd (fst (CartridgeTVBoy.load ins s))) =
    snd (fst (CartridgeEnhanced.load ins (enhanced s))) /\
  (Serializer.threw (Serializer.getInt ins) = true ->
   snd (fst (CartridgeTVBoy.load ins s)) = s) /\
  (forall n, fst (Serializer.getInt ins) = Some n ->
   getBank (snd (fst (CartridgeTVBoy.load ins s))) = n).
Proof.
  intros Hread.
  pose proof (proj2 (load_reports_read_failure ins s) Hread) as Hfalse.
  pose proof Hfalse as Hfail.
  destruct (load_spec ins s) as (Hres & Hbase & Hlock).
  rewrite Hres in Hfail. apply negb_false_iff in Hfail.
  unfold Serializer.threw in Hfail.
  destruct (fst (Serializer.getBool (snd (CartridgeEnhanced.load ins (enhanced s)))))
    as [b |] eqn:Hget; [discriminate |].
  split; [exact Hfalse |].
  split; [exact Hlock | split; [exact Hbase | split]].
  - intros Hthrew.
    destruct (snd (fst (CartridgeTVBoy.load ins s))) as [e' l'] eqn:Hs'.
    destruct s as [e l]. simpl in *. subst e' l'. f_equal.
    unfold CartridgeEnhanced.load. unfold Serializer.threw in Hthrew.
    now destruct (Serializer.getInt ins) as [[n |] ins'].
  - intros n Hn. unfold getBank. rewrite Hbase.
    unfold CartridgeEnhanced.load.
    destruct (Serializer.getInt ins) as [[m |] ins']; simpl in *; congruence.
Qed.

Lemma load_failure_state_witness :
  let ins := {| Serializer.fields := [Serializer.FInt 3];
                Serializer.room := 0;
                Serializer.failed := false |} in
  let s := {| enhanced := {| myCurrentBank := 5 |}; myBankingDisabled := true |} in
  (fst (fst (CartridgeTVBoy.load ins s)) = false /\
   myBankingDisabled (snd (fst (CartridgeTVBoy.load ins s))) = true /\
   getBank (snd (fst (CartridgeTVBoy.load ins s))) = 3) /\
  snd (fst (CartridgeTVBoy.load (Serializer.empty 0) s)) = s.
Proof.
  cbv zeta. split.
  - pose proof (load_failure_state
                  {| Serializer.fields := [Serializer.FInt 3];
                     Serializer.room := 0;
                     Serializer.failed := false |}
                  {| enhanced := {| myCurrentBank := 5 |}; myBankingDisabled := true |}
                  (or_intror eq_refl)) as (Hfalse & Hlock & _ & _ & Hbank).
    split; [exact Hfalse | split; [exact Hlock | exact (Hbank 3 eq_refl)]].
  - pose proof (load_failure_state (Serializer.empty 0)
                  {| enhanced := {| myCurrentBank := 5 |}; myBankingDisabled := true |}
                  (or_introl eq_refl)) as (_ & _ & _ & Hsame & _).
    exact (Hsame eq_refl).
Defined.

(** The same for [save]. *)
Lemma save_reports_write_failure (out : Serializer.t) (s : CartridgeTVBoy.t) :
  fst (CartridgeTVBoy.save s out) = false <->
  Serializer.threw (Serializer.putInt (getBank s) out) = true \/
  Serializer.threw
    (Serializer.putBool (myBankingDisabled s)
       (snd (Serializer.putInt (getBank s) out))) = true.
Proof.
  pose proof (save_spec s out) as Hsave.
  rewrite (enhanced_save_spec (enhanced s) out) in Hsave. cbn [snd] in Hsave.
  unfold getBank. rewrite Hsave, negb_false_iff. split; [now right |].
  intros [H | H]; [| exact H].
  now apply put_failed, put_threw_failed.
Qed.

(** C8. [load] returns false exactly when a read of the restore fails, be it
    the base's read of its fields or the read of the lock flag: the base's
    own report is not looked at, but the stream stays failed after the base's
    failure, so the flag's read throws as well.  In the same way [save]
    returns false exactly when the base's write or the write of the lock flag
    fails. *)
Theorem load_save_report_failure
  (ins out : Serializer.t) (s : CartridgeTVBoy.t) :
  (fst (fst (CartridgeTVBoy.load ins s)) = false <->
   Serializer.threw (Serializer.getInt ins) = true \/
   Serializer.threw (Serializer.getBool (snd (Serializer.getInt ins))) = true) /\
  (fst (fst (CartridgeEnhanced.load ins (enhanced s))) = false ->
   fst (fst (CartridgeTVBoy.load ins s)) = false) /\
  (fst (CartridgeTVBoy.save s out) = false <->
   Serializer.threw (Serializer.putInt (getBank s) out) = true \/
   Serializer.threw
     (Serializer.putBool (myBankingDisabled s)
        (snd (Serializer.putInt (getBank s) out))) = true) /\
  (fst (CartridgeEnhanced.save (enhanced s) out) = false ->
   fst (CartridgeTVBoy.save s out) = false).
Proof.
  split; [apply load_reports_read_failure | split]; [| split].
  - intros Hbase. apply load_reports_read_failure. left.
    destruct (enhanced_load_stream ins (enhanced s)) as (Hres & _).
    rewrite Hres in Hbase. now apply negb_false_iff in Hbase.
  - apply save_reports_write_failure.
  - intros Hbase. apply save_reports_write_failure. left.
    rewrite enhanced_save_spec in Hbase. cbn [fst] in Hbase.
    now apply negb_false_iff in Hbase.
Qed.

Lemma load_save_report_failure_witness :
  fst (fst (CartridgeTVBoy.load (Serializer.empty 0) fresh)) = false /\
  fst (CartridgeTVBoy.save fresh (Serializer.empty 0)) = false /\
  fst (CartridgeTVBoy.save fresh (Serializer.empty 1)) = false.
Proof.
  split; [| split].
  - apply (proj1 (proj2 (load_save_report_failure
                           (Serializer.empty 0) (Serializer.empty 0) fresh))).
    reflexivity.
  - apply (proj2 (proj2 (proj2 (load_save_report_failure
                                  (Serializer.empty 0) (Serializer.empty 0) fresh)))).
    reflexivity.
  - apply (proj1 (proj2 (proj2 (load_save_report_failure
                                  (Serializer.empty 0) (Serializer.empty 1) fresh)))).
    right. reflexivity.
Defined.

(** ** Scenarios of the specification, on an image of 8 banks *)

Example scenario_first_switch_locks :
  let s := run (8 * 4096) [EvAccess 0x1803 0] fresh in
  getBank s = 3 /\ myBankingDisabled s = true /\
  getBank (run (8 * 4096) [EvAccess 0x1805 0] s) = 3.
Proof. repeat split. Qed.

Example scenario_bank_0_keeps_unlocked :
  let s := run (8 * 4096) [EvAccess 0x1800 0] fresh in
  getBank s = 0 /\ myBankingDisabled s = false.
Proof. repeat split. Qed.

Example scenario_cold_access :
  let s := run (8 * 4096) [EvAccess 0x1803 0] fresh in
  checkSwitchBank (8 * 4096) 0x1FFC 0 s = (false, s).
Proof. reflexivity. Qed.

Example scenario_save_truncated :
  let s := run (8 * 4096) [EvAccess 0x1803 0] fresh in
  CartridgeTVBoy.save s (Serializer.empty 1) =
    (false, {| Serializer.fields := [Serializer.FInt 3];
               Serializer.room := 0;
               Serializer.failed := true |}) /\
  CartridgeTVBoy.save s (Serializer.empty 0) =
    (false, {| Serializer.fields := [];
               Serializer.room := 0;
               Serializer.failed := true |}).
Proof. split; reflexivity. Qed.

(** * Further properties of the TVBoy scheme *)

Import TVBoyBus.

(** Closes the side conditions of the examples below by computation. *)
Ltac by_computation :=
  vm_compute; repeat split; solve [reflexivity | discriminate].

(** ** Sequences of bus accesses *)

Lemma bank_fresh_switch (mySize k : Z) :
  0 < k < romBankCount mySize ->
  CartridgeTVBoy.bank mySize k fresh = (true, locked_at k).
Proof.
  intros Hk. rewrite bank_unlocked by reflexivity.
  unfold CartridgeEnhanced.bank. simpl.
  rewrite Z.mod_small by lia.
  destruct (k =? 0) eqn:E; [apply Z.eqb_eq in E; lia |].
  reflexivity.
Qed.

Lemma bank_fresh_zero (mySize : Z) :
  CartridgeTVBoy.bank mySize 0 fresh = (false, fresh).
Proof.
  rewrite bank_unlocked by reflexivity.
  unfold CartridgeEnhanced.bank. now rewrite Zmod_0_l.
Qed.

Lemma access_fresh (mySize : Z) (access : Z * Z) :
  0 < romBankCount mySize ->
  step mySize fresh (EvAccess (fst access) (snd access)) =
    if switches mySize access then locked_at (selected mySize (fst access)) else fresh.
Proof.
  intros Hpos. unfold switches, selected. simpl. unfold checkSwitchBank.
  destruct (hot (fst access)); simpl; [| reflexivity].
  pose proof (selected_in_range mySize (fst access) Hpos) as Hsel.
  destruct (uInt16 (Z.land (fst access) (romBankCount mySize - 1)) =? 0) eqn:E; simpl.
  - apply Z.eqb_eq in E. rewrite E. now rewrite bank_fresh_zero.
  - apply Z.eqb_neq in E. now rewrite bank_fresh_switch by lia.
Qed.

Lemma accesses_no_reset (accesses : list (Z * Z)) :
  forallb (fun ev => negb (is_reset ev)) (accesses_events accesses) = true.
Proof. induction accesses as [| a l IH]; simpl; auto. Qed.

(** X2. From construction, a sequence of bus accesses leaves the scheme
    locked at the bank of its first hot-range access that selects a bank
    other than 0, whatever follows that access; without such an access the
    scheme is still unlocked at bank 0.  The image holds at least one
    bank. *)
Theorem first_switch_decides (mySize : Z) (accesses : list (Z * Z)) :
  bankSize <= mySize ->
  run mySize (accesses_events accesses) fresh =
    match first_switch mySize accesses with
    | Some b => locked_at b
    | None => fresh
    end.
Proof.
  intros Hsize. pose proof (romBankCount_pos mySize Hsize) as Hpos.
  unfold first_switch.
  induction accesses as [| a l IH]; [reflexivity |].
  unfold run in *. cbn [accesses_events map fold_left find].
  rewrite access_fresh by assumption.
  destruct (switches mySize a); [| exact IH].
  cbn [option_map].
  apply (run_locked mySize (accesses_events l)); [reflexivity |].
  apply accesses_no_reset.
Qed.

Lemma first_switch_decides_witness :
  run (512 * 1024)
    (accesses_events [(0x1000, 0); (0x1800, 0); (0x1845, 7); (0x1803, 0)]) fresh =
    locked_at 69.
Proof.
  apply (first_switch_decides (512 * 1024)
           [(0x1000, 0); (0x1800, 0); (0x1845, 7); (0x1803, 0)]).
  by_computation.
Defined.

(** What a sequence of accesses makes of the constructed object: it is
    still as constructed, or locked at a bank of the image other than 0. *)
Lemma accesses_from_fresh (mySize : Z) (accesses : list (Z * Z)) :
  0 < romBankCount mySize ->
  run mySize (accesses_events accesses) fresh = fresh \/
  exists b,
    0 < b < romBankCount mySize /\
    run mySize (accesses_events accesses) fresh = locked_at b.
Proof.
  intros Hpos. unfold run.
  induction accesses as [| a l IH]; [now left |].
  cbn [accesses_events map fold_left].
  rewrite access_fresh by assumption.
  destruct (switches mySize a) eqn:Hsw; [| exact IH].
  right. exists (selected mySize (fst a)). split.
  - unfold switches in Hsw. apply andb_true_iff in Hsw as [_ Hne].
    apply negb_true_iff, Z.eqb_neq in Hne.
    pose proof (selected_in_range mySize (fst a) Hpos) as Hrange.
    unfold selected in *. lia.
  - apply (run_locked mySize (accesses_events l)); [reflexivity |].
    apply accesses_no_reset.
Qed.

(** X1. In every state that bus accesses reach from construction, on an
    image of at least one bank, the lock is set exactly when the current
    bank is not bank 0. *)
Theorem locked_iff_left_bank_0 (mySize : Z) (accesses : list (Z * Z)) :
  bankSize <= mySize ->
  let s := run mySize (accesses_events accesses) fresh in
  myBankingDisabled s = negb (getBank s =? 0).
Proof.
  intros Hsize. cbv zeta.
  pose proof (romBankCount_pos mySize Hsize) as Hpos.
  destruct (accesses_from_fresh mySize accesses Hpos) as [-> | (b & Hb & ->)].
  - reflexivity.
  - unfold locked_at, getBank. cbn.
    destruct (b =? 0) eqn:E; [apply Z.eqb_eq in E; lia | reflexivity].
Qed.

Lemma locked_iff_left_bank_0_witness :
  let s := run (512 * 1024)
             (accesses_events [(0x1800, 0); (0x1FFC, 1); (0x1845, 7); (0x1800, 0)])
             fresh in
  myBankingDisabled s = negb (getBank s =? 0) /\ getBank s = 69.
Proof.
  cbv zeta. split; [| reflexivity].
  apply (locked_iff_left_bank_0 (512 * 1024)
           [(0x1800, 0); (0x1FFC, 1); (0x1845, 7); (0x1800, 0)]).
  by_computation.
Defined.

(** ** Mirrors of the hotspots *)

Lemma land_low_bits (a m n : Z) :
  0 <= n -> 0 <= m < 2 ^ n -> Z.land (a mod 2 ^ n) m = Z.land a m.
Proof.
  intros Hn Hm.
  rewrite <- Z.land_ones by assumption.
  rewrite <- Z.land_assoc. f_equal.
  rewrite Z.land_comm, Z.land_ones by assumption.
  now apply Z.mod_small.
Qed.

Lemma ADDR_MASK_mod (a : Z) : Z.land a ADDR_MASK = a mod 2 ^ 13.
Proof. change ADDR_MASK with (Z.ones 13). apply Z.land_ones. lia. Qed.

Lemma hot_masked (a : Z) : hot (Z.land a ADDR_MASK) = hot a.
Proof.
  unfold hot. rewrite (ADDR_MASK_mod (Z.land a ADDR_MASK)), ADDR_MASK_mod.
  now rewrite Z.mod_mod by lia.
Qed.

(** X3. With up to 8192 banks [checkSwitchBank] looks at the low 13 bits of
    the address only: the masked address, and every mirror of the address
    8K further up or down, give the same result and the same state. *)
Theorem checkSwitchBank_mirrors (mySize address value n : Z) (s : CartridgeTVBoy.t) :
  0 < romBankCount mySize <= 8192 ->
  checkSwitchBank mySize (Z.land address ADDR_MASK) value s =
    checkSwitchBank mySize address value s /\
  checkSwitchBank mySize (address + 0x2000 * n) value s =
    checkSwitchBank mySize address value s.
Proof.
  intros Hcount.
  assert (Hsel : forall a, Z.land (a mod 2 ^ 13) (romBankCount mySize - 1) =
                           Z.land a (romBankCount mySize - 1))
    by (intros a; apply land_low_bits; lia).
  split; unfold checkSwitchBank.
  - rewrite hot_masked. rewrite ADDR_MASK_mod, Hsel. reflexivity.
  - assert (Hmod : (address + 0x2000 * n) mod 2 ^ 13 = address mod 2 ^ 13).
    { change 0x2000 with (2 ^ 13). rewrite Z.mul_comm. apply Z.mod_add. lia. }
    rewrite <- (hot_masked (address + 0x2000 * n)), <- (hot_masked address).
    rewrite !ADDR_MASK_mod, Hmod.
    rewrite <- (Hsel (address + 0x2000 * n)), <- (Hsel address), Hmod.
    reflexivity.
Qed.

Lemma checkSwitchBank_mirrors_witness :
  checkSwitchBank (512 * 1024) (Z.land 0xF803 ADDR_MASK) 0 fresh =
    checkSwitchBank (512 * 1024) 0xF803 0 fresh /\
  checkSwitchBank (512 * 1024) (0x1803 + 0x2000 * 7) 0 fresh =
    checkSwitchBank (512 * 1024) 0x1803 0 fresh.
Proof.
  apply (checkSwitchBank_mirrors (512 * 1024) 0xF803 0 7 fresh).
  by_computation.
Defined.

(** ** The bank a hotspot selects *)

Lemma hot_offset (address : Z) :
  hot address = true ->
  address mod 2 ^ 11 = Z.land address ADDR_MASK - 0x1800 /\
  0 <= Z.land address ADDR_MASK - 0x1800 <= 127.
Proof.
  intros Hhot. apply hot_iff in Hhot.
  split; [| lia].
  rewrite ADDR_MASK_mod in *.
  rewrite <- (Z.mod_mod_divide address (2 ^ 13) (2 ^ 11)) by (apply pow2_divides; lia).
  remember (address mod 2 ^ 13) as m.
  replace m with ((m - 0x1800) + 3 * 2 ^ 11) at 1 by lia.
  rewrite Z.mod_add by lia. apply Z.mod_small. lia.
Qed.

(** X4. With up to 2048 banks, power of two or not, the bank that a
    hot-range access asks for is its offset into the hot range masked with
    [romBankCount() - 1]; it never exceeds 127, so no hotspot reaches a bank
    above 127. *)
Theorem selected_is_masked_offset (mySize address : Z) :
  0 < romBankCount mySize <= 2048 ->
  hot address = true ->
  selected mySize address =
    Z.land (Z.land address ADDR_MASK - 0x1800) (romBankCount mySize - 1) /\
  0 <= selected mySize address <= 127.
Proof.
  intros Hcount Hhot.
  destruct (hot_offset address Hhot) as [Hoff Hrange].
  assert (Heq : Z.land address (romBankCount mySize - 1) =
                Z.land (Z.land address ADDR_MASK - 0x1800) (romBankCount mySize - 1)).
  { rewrite <- Hoff. symmetry. apply land_low_bits; lia. }
  assert (Hle : 0 <= Z.land address (romBankCount mySize - 1) <= 127).
  { rewrite Heq, Z.land_comm.
    pose proof (land_le_mask (romBankCount mySize - 1)
                  (Z.land address ADDR_MASK - 0x1800) ltac:(lia)).
    lia. }
  unfold selected, uInt16. rewrite Z.mod_small by lia. split; [exact Heq | exact Hle].
Qed.


Lemma selected_is_masked_offset_witness :
  selected (12 * 1024) 0x1801 =
    Z.land (Z.land 0x1801 ADDR_MASK - 0x1800) (romBankCount (12 * 1024) - 1) /\
  0 <= selected (12 * 1024) 0x1801 <= 127.
Proof.
  apply (selected_is_masked_offset (12 * 1024) 0x1801); by_computation.
Defined.

(** X5. When the bank count is a power of two up to 128, every bank [b] has
    its hotspot: an access to 0x1800 + b on the constructed scheme is on the
    hot range and switches to [b], locking unless [b] is 0. *)
Theorem every_bank_has_a_hotspot (mySize e b value : Z) :
  0 <= e <= 7 ->
  romBankCount mySize = 2 ^ e ->
  0 <= b < romBankCount mySize ->
  hot (0x1800 + b) = true /\
  checkSwitchBank mySize (0x1800 + b) value fresh =
    (true, if b =? 0 then fresh else locked_at b).
Proof.
  intros He Hcount Hb.
  assert (Hb128 : 0 <= b < 128).
  { assert (2 ^ e <= 2 ^ 7) by (apply Z.pow_le_mono_r; lia). lia. }
  assert (Hmask : Z.land (0x1800 + b) ADDR_MASK = 0x1800 + b)
    by (rewrite ADDR_MASK_mod; apply Z.mod_small; lia).
  assert (Hhot : hot (0x1800 + b) = true) by (apply hot_iff; lia).
  split; [exact Hhot |].
  unfold checkSwitchBank. rewrite Hhot. f_equal.
  rewrite (selected_pow2 mySize e (0x1800 + b)) by (assumption || lia).
  rewrite Hmask, Hcount.
  replace (0x1800 + b) with (b + 3 * 2 ^ (11 - e) * 2 ^ e).
  - rewrite Z.mod_add by lia. rewrite Z.mod_small by lia.
    destruct (b =? 0) eqn:E.
    + apply Z.eqb_eq in E. subst b. now rewrite bank_fresh_zero.
    + apply Z.eqb_neq in E. now rewrite bank_fresh_switch by lia.
  - rewrite <- Z.mul_assoc, <- Z.pow_add_r by lia.
    replace (11 - e + e) with 11 by lia. lia.
Qed.

Lemma every_bank_has_a_hotspot_witness :
  hot (0x1800 + 127) = true /\
  checkSwitchBank (512 * 1024) (0x1800 + 127) 0 fresh = (true, locked_at 127).
Proof.
  apply (every_bank_has_a_hotspot (512 * 1024) 7 127 0); by_computation.
Defined.

(** ** Save states in a shared stream *)

(** X6. On a stream that has not failed and has room for two fields,
    [save] succeeds and appends exactly the current bank and then the lock
    flag behind what the stream already holds.  On a stream that has not
    failed and starts with an integer and a boolean, [load] succeeds, makes
    them the current bank and the lock flag whatever the object was before,
    and leaves the rest of the stream unread. *)
Theorem save_load_frame
  (s s0 : CartridgeTVBoy.t) (out ins : Serializer.t) (n : Z) (b : bool)
  (rest : list Serializer.field) :
  Serializer.failed out = false ->
  (2 <= Serializer.room out)%nat ->
  Serializer.failed ins = false ->
  Serializer.fields ins = Serializer.FInt n :: Serializer.FBool b :: rest ->
  CartridgeTVBoy.save s out =
    (true,
     {| Serializer.fields :=
          Serializer.fields out ++
            [Serializer.FInt (getBank s); Serializer.FBool (myBankingDisabled s)];
        Serializer.room := Serializer.room out - 2;
        Serializer.failed := false |}) /\
  CartridgeTVBoy.load ins s0 =
    (true,
     {| enhanced := {| myCurrentBank := n |}; myBankingDisabled := b |},
     {| Serializer.fields := rest;
        Serializer.room := Serializer.room ins;
        Serializer.failed := false |}).
Proof.
  intros Hout Hroom Hins Hfields. split.
  - unfold CartridgeTVBoy.save, CartridgeEnhanced.save, Serializer.putInt,
      Serializer.putBool, Serializer.put, getBank.
    rewrite Hout.
    destruct (Serializer.room out) as [| [| r]] eqn:Hr; [lia | lia |].
    cbn. rewrite <- app_assoc. cbn. now rewrite Nat.sub_0_r.
  - unfold CartridgeTVBoy.load, CartridgeEnhanced.load, Serializer.getInt,
      Serializer.getBool.
    rewrite Hins, Hfields. reflexivity.
Qed.

Lemma save_load_frame_witness :
  CartridgeTVBoy.save (locked_at 3) (Serializer.empty 2) =
    (true,
     {| Serializer.fields := [Serializer.FInt 3; Serializer.FBool true];
        Serializer.room := 0;
        Serializer.failed := false |}) /\
  CartridgeTVBoy.load
    {| Serializer.fields :=
         [Serializer.FInt 3; Serializer.FBool true; Serializer.FInt 9];
       Serializer.room := 0;
       Serializer.failed := false |} fresh =
    (true, locked_at 3,
     {| Serializer.fields := [Serializer.FInt 9];
        Serializer.room := 0;
        Serializer.failed := false |}).
Proof.
  apply (save_load_frame (locked_at 3) fresh (Serializer.empty 2)
           {| Serializer.fields :=
                [Serializer.FInt 3; Serializer.FBool true; Serializer.FInt 9];
              Serializer.room := 0;
              Serializer.failed := false |}
           3 true [Serializer.FInt 9]);
    solve [reflexivity | apply le_n].
Defined.

(** X7. Two objects saved one after the other into one stream are restored
    by two loads in the same order, each load taking its own two fields and
    nothing more. *)
Theorem two_carts_share_a_stream (s1 s2 : CartridgeTVBoy.t) (n : nat) :
  let out1 := CartridgeTVBoy.save s1 (Serializer.empty (4 + n)) in
  let out2 := CartridgeTVBoy.save s2 (snd out1) in
  let in1 := CartridgeTVBoy.load (snd out2) fresh in
  let in2 := CartridgeTVBoy.load (snd in1) fresh in
  fst out1 = true /\ fst out2 = true /\
  fst in1 = (true, s1) /\ fst in2 = (true, s2) /\
  Serializer.fields (snd in2) = [].
Proof.
  destruct s1 as [[c1] l1], s2 as [[c2] l2]. cbv zeta. repeat split.
Qed.

(** * The toggle grid *)

Import ToggleWidget.

(** ** Flipping one entry of a list *)

Lemma flip_nth_defined (n : nat) (l : list bool) :
  (n < length l)%nat -> exists l', flip_nth n l = Some l'.
Proof.
  revert n. induction l as [| b rest IH]; intros [| n] H; simpl in *; try lia.
  - now eexists.
  - destruct (IH n ltac:(lia)) as [l' Hl']. rewrite Hl'. now eexists.
Qed.

Lemma flip_nth_length (n : nat) (l l' : list bool) :
  flip_nth n l = Some l' -> length l' = length l.
Proof.
  revert n l'. induction l as [| b rest IH]; intros [| n] l' H; simpl in *;
    try discriminate.
  - injection H as <-. reflexivity.
  - destruct (flip_nth n rest) as [r |] eqn:E; [| discriminate].
    injection H as <-. simpl. f_equal. now apply (IH n).
Qed.

Lemma flip_nth_lookup (n : nat) (l l' : list bool) :
  flip_nth n l = Some l' ->
  forall m,
    nth_error l' m =
      if Nat.eqb m n then option_map negb (nth_error l m) else nth_error l m.
Proof.
  revert n l'. induction l as [| b rest IH]; intros [| n] l' H m; simpl in *;
    try discriminate.
  - injection H as <-. now destruct m.
  - destruct (flip_nth n rest) as [r |] eqn:E; [| discriminate].
    injection H as <-. destruct m as [| m]; [reflexivity |].
    simpl. now apply IH.
Qed.

Lemma flip_nth_twice (n : nat) (l l' : list bool) :
  flip_nth n l = Some l' -> flip_nth n l' = Some l.
Proof.
  revert n l'. induction l as [| b rest IH]; intros [| n] l' H; simpl in *;
    try discriminate.
  - injection H as <-. simpl. now rewrite negb_involutive.
  - destruct (flip_nth n rest) as [r |] eqn:E; [| discriminate].
    injection H as <-. simpl. now rewrite (IH n r E).
Qed.

Lemma flip_at_defined (i : Z) (l : list bool) :
  0 <= i < Z.of_nat (length l) -> exists l', flip_at i l = Some l'.
Proof.
  intros H. unfold flip_at.
  destruct (i <? 0) eqn:E; [apply Z.ltb_lt in E; lia |].
  apply flip_nth_defined. lia.
Qed.

Lemma flip_at_nth (i : Z) (l l' : list bool) :
  flip_at i l = Some l' -> flip_nth (Z.to_nat i) l = Some l'.
Proof. unfold flip_at. now destruct (i <? 0). Qed.

(** What [toggleSelected] does when it is defined. *)
Lemma toggleSelected_spec (w w' : ToggleWidget.t) :
  toggleSelected w = Some w' ->
  flip_nth (Z.to_nat (_selectedItem w)) (_stateList w) = Some (_stateList w') /\
  flip_nth (Z.to_nat (_selectedItem w)) (_changedList w) = Some (_changedList w') /\
  sent w' = sent w ++ [_selectedItem w] /\
  w' = sendCommand (_selectedItem w) (setLists (_stateList w') (_changedList w') w).
Proof.
  unfold toggleSelected.
  destruct (flip_at (_selectedItem w) (_stateList w)) as [st |] eqn:Est;
    [| discriminate].
  destruct (flip_at (_selectedItem w) (_changedList w)) as [ch |] eqn:Ech;
    [| discriminate].
  intros H. injection H as <-. simpl.
  auto using flip_at_nth.
Qed.

Lemma toggleSelected_defined (w : ToggleWidget.t) :
  0 <= _selectedItem w < Z.of_nat (length (_stateList w)) ->
  0 <= _selectedItem w < Z.of_nat (length (_changedList w)) ->
  exists w', toggleSelected w = Some w'.
Proof.
  intros Hst Hch. unfold toggleSelected.
  destruct (flip_at_defined _ _ Hst) as [st ->].
  destruct (flip_at_defined _ _ Hch) as [ch ->].
  now eexists.
Qed.

(** ** Finding the cell under the pointer *)

Lemma findItem_value (x y : Z) (w : ToggleWidget.t) :
  0 < _rowHeight w -> 0 < _colWidth w -> 0 <= x -> 1 <= y ->
  findItem x y w =
    Some (Z.min ((y - 1) / _rowHeight w) (_rows w - 1) * _cols w +
          Z.min (x / _colWidth w) (_cols w - 1)).
Proof.
  intros Hh Hw Hx Hy. unfold findItem.
  destruct (_rowHeight w =? 0) eqn:E1; [apply Z.eqb_eq in E1; lia |].
  destruct (_colWidth w =? 0) eqn:E2; [apply Z.eqb_eq in E2; lia |].
  rewrite !Z.quot_div_nonneg by lia.
  f_equal. f_equal; [f_equal |].
  - destruct ((y - 1) / _rowHeight w >=? _rows w) eqn:E;
      [apply Z.geb_le in E | rewrite Z.geb_leb in E; apply Z.leb_gt in E]; lia.
  - destruct (x / _colWidth w >=? _cols w) eqn:E;
      [apply Z.geb_le in E | rewrite Z.geb_leb in E; apply Z.leb_gt in E]; lia.
Qed.

(** X8. With a grid of at least one row and column, cell sizes set, and a
    pointer at or right of the widget's left edge and at least one pixel below
    its top, [findItem] returns an index of the grid, however far the
    pointer lies beyond the last row or column. *)
Theorem findItem_in_grid (x y : Z) (w : ToggleWidget.t) :
  0 < _rows w -> 0 < _cols w -> 0 < _rowHeight w -> 0 < _colWidth w ->
  0 <= x -> 1 <= y ->
  exists item,
    findItem x y w = Some item /\ 0 <= item < _rows w * _cols w.
Proof.
  intros Hr Hc Hh Hw Hx Hy.
  rewrite findItem_value by assumption. eexists. split; [reflexivity |].
  pose proof (Z.div_pos (y - 1) (_rowHeight w) ltac:(lia) Hh).
  pose proof (Z.div_pos x (_colWidth w) Hx Hw).
  nia.
Qed.

Lemma findItem_in_grid_witness :
  exists item, findItem 500 300 grid_2x8 = Some item /\ 0 <= item < 2 * 8.
Proof.
  apply (findItem_in_grid 500 300 grid_2x8); by_computation.
Defined.



(** ** Selecting with the mouse *)

Lemma quot_minus_one (c : Z) :
  0 < c ->
  (c = 1 /\ Z.quot (-1) c = -1) \/ (1 < c /\ Z.quot (-1) c = 0).
Proof.
  intros Hc. destruct (Z.eq_dec c 1) as [-> | Hne]; [left; now split |].
  right. split; [lia |].
  change (-1) with (- (1)). rewrite Z.quot_opp_l by lia.
  rewrite Z.quot_small by lia. reflexivity.
Qed.



(** X11. A press on a cell for which the state list has no entry, on a
    widget whose selection was not already -1, sets the selection to -1
    and leaves the cursor with a negative row or column; Return or Enter
    pressed next is reported as handled and changes nothing at all. *)
Theorem enter_after_click_outside_list (x y : Z) (w w' : ToggleWidget.t) (item : Z) :
  isEnabled w = true ->
  0 < _cols w ->
  findItem x y w = Some item ->
  Z.of_nat (length (_stateList w)) <= item ->
  _selectedItem w <> -1 ->
  handleMouseDown x y w = Some w' ->
  _selectedItem w' = -1 /\
  (_currentRow w' < 0 \/ _currentCol w' < 0) /\
  handleKeyDown KBDK_RETURN false false w' = Some (true, w') /\
  handleKeyDown KBDK_KP_ENTER false false w' = Some (true, w').
Proof.
  intros Hen Hc Hitem Hout Hsel. unfold handleMouseDown.
  rewrite Hen, Hitem. cbn [negb].
  destruct (item >? Z.of_nat (length (_stateList w)) - 1) eqn:E;
    [| rewrite Z.gtb_ltb in E; apply Z.ltb_ge in E; lia].
  destruct (_selectedItem w =? -1) eqn:Es; [apply Z.eqb_eq in Es; lia |].
  cbn [negb].
  destruct (_cols w =? 0) eqn:Ec; [apply Z.eqb_eq in Ec; lia |].
  intros H. injection H as <-. cbn.
  destruct (quot_minus_one (_cols w) Hc) as [[Hc1 ->] | [Hc1 ->]].
  - rewrite Hc1. cbn. repeat split. now left.
  - replace (-1 - 0 * _cols w) with (-1) by lia. cbn.
    repeat split. now right.
Qed.

Lemma enter_after_click_outside_list_witness :
  let w := setLists [false; true; false] [false; false; false] grid_2x8 in
  exists w',
    handleMouseDown 30 15 w = Some w' /\
    _selectedItem w' = -1 /\
    handleKeyDown KBDK_RETURN false false w' = Some (true, w').
Proof.
  cbv zeta. eexists. split; [reflexivity |].
  destruct (enter_after_click_outside_list 30 15
              (setLists [false; true; false] [false; false; false] grid_2x8)
              _ 10 eq_refl ltac:(by_computation) eq_refl
              ltac:(by_computation) ltac:(by_computation) eq_refl)
    as (Hsel & _ & Hreturn & _).
  split; [exact Hsel | exact Hreturn].
Defined.

(** ** What every handler keeps *)

Lemma same_widget_refl (w : ToggleWidget.t) : same_widget w w.
Proof. unfold same_widget. repeat split. Qed.

Lemma same_widget_trans (w1 w2 w3 : ToggleWidget.t) :
  same_widget w1 w2 -> same_widget w2 w3 -> same_widget w1 w3.
Proof. unfold same_widget. intuition congruence. Qed.

Lemma laid_out_same (w w' : ToggleWidget.t) :
  same_widget w w' -> laid_out w -> laid_out w'.
Proof.
  unfold same_widget, laid_out.
  intros (-> & -> & -> & -> & _ & _ & _ & -> & ->). auto.
Qed.

Lemma toggleSelected_same (w w' : ToggleWidget.t) :
  toggleSelected w = Some w' ->
  same_widget w w' /\
  _currentRow w' = _currentRow w /\ _currentCol w' = _currentCol w /\
  _selectedItem w' = _selectedItem w.
Proof.
  intros H. destruct (toggleSelected_spec w w' H) as (Hst & Hch & _ & Hw').
  apply flip_nth_length in Hst. apply flip_nth_length in Hch.
  rewrite Hw'. unfold same_widget. cbn. repeat split; assumption.
Qed.

Lemma keyAction_cursor (key : StellaKey) (w : ToggleWidget.t) :
  0 < _rows w -> 0 < _cols w -> cursor_bounded w ->
  forall handled isDirty toggle row col,
    keyAction key w = (handled, isDirty, toggle, row, col) ->
    row < _rows w /\ col < _cols w /\
    (toggle = true ->
     0 <= row /\ 0 <= col /\
     row = _currentRow w /\ col = _currentCol w /\ isDirty = true) /\
    (isDirty = false -> row = _currentRow w /\ col = _currentCol w).
Proof.
  intros Hr Hc [Hrow Hcol] handled isDirty toggle row col.
  unfold keyAction.
  destruct key;
    repeat match goal with
           | |- context [if ?b then _ else _] => destruct b eqn:?
           end;
    intros H; injection H as <- <- <- <- <-;
    rewrite ?andb_true_iff, ?Z.geb_le, ?Z.gtb_ltb, ?Z.ltb_lt in *;
    repeat split; try lia; try discriminate; intuition lia.
Qed.

Lemma handleKeyDown_keeps
  (key : StellaKey) (isControl isAlt : bool) (w : ToggleWidget.t) :
  laid_out w -> cursor_bounded w ->
  exists handled w',
    handleKeyDown key isControl isAlt w = Some (handled, w') /\
    same_widget w w' /\ cursor_bounded w'.
Proof.
  intros Hlaid Hcur.
  pose proof Hlaid as (Hr & Hc & _ & _ & Hst & Hch).
  unfold handleKeyDown.
  destruct (isControl || isAlt).
  { exists true, w. auto using same_widget_refl. }
  destruct (keyAction key w) as [[[[handled isDirty] toggle] row] col] eqn:Hkey.
  destruct (keyAction_cursor key w Hr Hc Hcur _ _ _ _ _ Hkey)
    as (Hrow & Hcol & Htoggle & Hclean).
  destruct isDirty.
  - destruct (toggle && _editable w) eqn:Et.
    + apply andb_true_iff in Et as [Et _].
      destruct (Htoggle Et) as (Hrow0 & Hcol0 & _).
      destruct (toggleSelected_defined
                  (setSelectedItem (row * _cols w + col) (setCursor row col w)))
        as [w3 Hw3]; [cbn; nia | cbn; nia |].
      rewrite Hw3. cbn [option_map].
      destruct (toggleSelected_same _ _ Hw3) as (Hsame & Hr3 & Hc3 & _).
      exists handled, (setDirty w3). split; [reflexivity |].
      unfold same_widget, cursor_bounded in *. cbn in *.
      intuition congruence.
    + exists handled. eexists. split; [reflexivity |].
      unfold same_widget, cursor_bounded. cbn. repeat split; assumption.
  - exists handled. eexists. split; [reflexivity |].
    unfold same_widget, cursor_bounded. cbn. repeat split; assumption.
Qed.

Lemma handleMouseDown_keeps (x y : Z) (w : ToggleWidget.t) :
  laid_out w -> cursor_bounded w -> 0 <= x -> 1 <= y ->
  exists w',
    handleMouseDown x y w = Some w' /\ same_widget w w' /\ cursor_bounded w'.
Proof.
  intros (Hr & Hc & Hh & Hw & Hst & Hch) Hcur Hx Hy.
  destruct (findItem_in_grid x y w Hr Hc Hh Hw Hx Hy) as (item & Hitem & Hrange).
  unfold handleMouseDown. rewrite Hitem.
  destruct (isEnabled w); cbn [negb]; [| exists w; auto using same_widget_refl].
  destruct (item >? Z.of_nat (length (_stateList w)) - 1) eqn:E;
    [rewrite Z.gtb_ltb in E; apply Z.ltb_lt in E; lia |].
  destruct (_selectedItem w =? item); cbn [negb];
    [exists w; auto using same_widget_refl |].
  destruct (_cols w =? 0) eqn:Ec; [apply Z.eqb_eq in Ec; lia |].
  eexists. split; [reflexivity |].
  unfold same_widget, cursor_bounded. cbn.
  rewrite Z.quot_div_nonneg by lia.
  pose proof (Z.div_mod item (_cols w) ltac:(lia)).
  pose proof (Z.mod_pos_bound item (_cols w) Hc).
  assert (item / _cols w < _rows w) by (apply Z.div_lt_upper_bound; nia).
  repeat split; try reflexivity; nia.
Qed.

Lemma handleMouseUp_keeps (x y clickCount : Z) (w : ToggleWidget.t) :
  laid_out w -> cursor_bounded w -> 0 <= x -> 1 <= y ->
  exists w',
    handleMouseUp x y clickCount w = Some w' /\
    same_widget w w' /\ cursor_bounded w'.
Proof.
  intros (Hr & Hc & Hh & Hw & Hst & Hch) Hcur Hx Hy.
  destruct (findItem_in_grid x y w Hr Hc Hh Hw Hx Hy) as (item & Hitem & Hrange).
  unfold handleMouseUp. rewrite Hitem.
  destruct (negb (isEnabled w) || negb (_editable w));
    [exists w; auto using same_widget_refl |].
  destruct (clickCount =? _clicksToChange w);
    [| exists w; auto using same_widget_refl].
  destruct (_selectedItem w =? item) eqn:Es;
    [| exists w; auto using same_widget_refl].
  apply Z.eqb_eq in Es.
  destruct (toggleSelected_defined w) as [w1 Hw1]; [lia | lia |].
  rewrite Hw1. cbn [option_map].
  destruct (toggleSelected_same _ _ Hw1) as (Hsame & Hr1 & Hc1 & _).
  exists (setDirty w1). split; [reflexivity |].
  unfold same_widget, cursor_bounded in *. cbn in *.
  intuition congruence.
Qed.

(** X13. On a widget whose lists cover the grid (grid and cell sizes set,
    cursor not beyond the last row or column), no sequence of mouse, key
    and command events with the pointer inside the widget divides by zero
    or indexes a list outside its bounds: every handler returns, the
    lists keep their lengths, and the cursor stays within the last row and
    column. *)
Theorem events_stay_inside_the_lists
  (kSetPositionCmd : Z) (evs : list event) (w : ToggleWidget.t) :
  laid_out w -> cursor_bounded w ->
  forallb pointer_inside evs = true ->
  exists w',
    run kSetPositionCmd evs w = Some w' /\
    same_widget w w' /\ laid_out w' /\ cursor_bounded w'.
Proof.
  revert w. induction evs as [| ev evs IH]; intros w Hlaid Hcur Hevs.
  - exists w. auto using same_widget_refl.
  - cbn [forallb] in Hevs. apply andb_true_iff in Hevs as [Hev Hrest].
    assert (Hstep : exists w1,
               step kSetPositionCmd w ev = Some w1 /\
               same_widget w w1 /\ cursor_bounded w1).
    { destruct ev as [| | x y | x y clickCount | key isControl isAlt | cmd data];
        cbn [step pointer_inside] in *.
      - eexists. split; [reflexivity |]. now split.
      - eexists. split; [reflexivity |]. now split.
      - apply andb_true_iff in Hev as [Hx Hy].
        apply Z.leb_le in Hx, Hy. now apply handleMouseDown_keeps.
      - apply andb_true_iff in Hev as [Hx Hy].
        apply Z.leb_le in Hx, Hy. now apply handleMouseUp_keeps.
      - destruct (handleKeyDown_keeps key isControl isAlt w Hlaid Hcur)
          as (handled & w1 & -> & Hsame & Hcur1).
        exists w1. auto.
      - eexists. split; [reflexivity |]. unfold handleCommand.
        destruct (cmd =? kSetPositionCmd); [| auto using same_widget_refl].
        destruct (negb (_selectedItem w =? data)); [| auto using same_widget_refl].
        now split. }
    destruct Hstep as (w1 & Hw1 & Hsame1 & Hcur1).
    destruct (IH w1 (laid_out_same _ _ Hsame1 Hlaid) Hcur1 Hrest)
      as (w' & Hrun & Hsame & Hlaid' & Hcur').
    exists w'. cbn [run]. rewrite Hw1.
    eauto using same_widget_trans.
Qed.

Lemma events_stay_inside_the_lists_witness :
  exists w',
    run 0 [MouseEntered; MouseDown 500 300; MouseUp 500 300 1;
           KeyDown KBDK_PAGEDOWN false false; KeyDown KBDK_END false false;
           KeyDown KBDK_RIGHT false false; KeyDown KBDK_RETURN false false;
           Command 0 99; MouseUp 0 1 1; MouseLeft] grid_2x8 = Some w' /\
    same_widget grid_2x8 w' /\ laid_out w' /\ cursor_bounded w'.
Proof.
  apply (events_stay_inside_the_lists 0
           [MouseEntered; MouseDown 500 300; MouseUp 500 300 1;
            KeyDown KBDK_PAGEDOWN false false; KeyDown KBDK_END false false;
            KeyDown KBDK_RIGHT false false; KeyDown KBDK_RETURN false false;
            Command 0 99; MouseUp 0 1 1; MouseLeft] grid_2x8);
    by_computation.
Defined.

(** ** A widget that is not editable *)

Lemma step_not_editable
  (kSetPositionCmd : Z) (ev : event) (w w' : ToggleWidget.t) :
  _editable w = false ->
  step kSetPositionCmd w ev = Some w' ->
  _editable w' = false /\
  _stateList w' = _stateList w /\ _changedList w' = _changedList w /\
  sent w' = sent w.
Proof.
  intros Hed.
  destruct ev as [| | x y | x y clickCount | key isControl isAlt | cmd data];
    cbn [step].
  - intros H. injection H as <-. auto.
  - intros H. injection H as <-. auto.
  - unfold handleMouseDown.
    destruct (negb (isEnabled w)); [intros H; injection H as <-; auto |].
    destruct (findItem x y w) as [item |]; [| discriminate].
    destruct (negb (_selectedItem w =? _)); [| intros H; injection H as <-; auto].
    destruct (_cols w =? 0); [discriminate |].
    intros H. injection H as <-. auto.
  - unfold handleMouseUp. rewrite Hed, orb_true_r.
    intros H. injection H as <-. auto.
  - unfold handleKeyDown.
    destruct (isControl || isAlt); [intros H; injection H as <-; auto |].
    destruct (keyAction key w) as [[[[handled isDirty] toggle] row] col].
    rewrite Hed, andb_false_r.
    destruct isDirty; intros H; injection H as <-; auto.
  - unfold handleCommand.
    destruct (cmd =? kSetPositionCmd); [| intros H; injection H as <-; auto].
    destruct (negb (_selectedItem w =? data)); intros H; injection H as <-; auto.
Qed.

(** X12. While [_editable] is false no sequence of events changes the
    state list or the changed list or sends a command: whenever the
    handlers return, the three are as they were. *)
Theorem not_editable_never_toggles
  (kSetPositionCmd : Z) (evs : list event) (w w' : ToggleWidget.t) :
  _editable w = false ->
  run kSetPositionCmd evs w = Some w' ->
  _stateList w' = _stateList w /\ _changedList w' = _changedList w /\
  sent w' = sent w.
Proof.
  revert w. induction evs as [| ev evs IH]; intros w Hed; cbn [run].
  - intros H. injection H as <-. auto.
  - destruct (step kSetPositionCmd w ev) as [w1 |] eqn:Hstep; [| discriminate].
    destruct (step_not_editable _ _ _ _ Hed Hstep) as (Hed1 & Hst & Hch & Hsent).
    intros Hrun. destruct (IH w1 Hed1 Hrun) as (Hst' & Hch' & Hsent').
    repeat split; congruence.
Qed.

Lemma not_editable_never_toggles_witness :
  let w :=
    {| _rows := 2; _cols := 8; _currentRow := 0; _currentCol := 0;
       _rowHeight := 10; _colWidth := 12; _selectedItem := 0;
       _clicksToChange := 1; _editable := false;
       _stateList := repeat false 16; _changedList := repeat false 16;
       isEnabled := true; hilited := false; dirty := false; sent := [] |} in
  exists w',
    run 0 [MouseDown 30 15; MouseUp 30 15 1; KeyDown KBDK_RETURN false false] w =
      Some w' /\
    _stateList w' = repeat false 16 /\ sent w' = [].
Proof.
  cbv zeta. eexists. split; [reflexivity |].
  destruct (not_editable_never_toggles 0
              [MouseDown 30 15; MouseUp 30 15 1; KeyDown KBDK_RETURN false false]
              {| _rows := 2; _cols := 8; _currentRow := 0; _currentCol := 0;
                 _rowHeight := 10; _colWidth := 12; _selectedItem := 0;
                 _clicksToChange := 1; _editable := false;
                 _stateList := repeat false 16; _changedList := repeat false 16;
                 isEnabled := true; hilited := false; dirty := false; sent := [] |}
              _ eq_refl eq_refl)
    as (Hstate & _ & Hsent).
  split; [exact Hstate | exact Hsent].
Defined.

(** ** Toggling *)

Lemma enter_toggles (key : StellaKey) (w : ToggleWidget.t) :
  is_enter key = true ->
  _editable w = true ->
  0 <= _currentRow w -> 0 <= _currentCol w ->
  handleKeyDown key false false w =
    option_map (fun w3 => (true, setDirty w3))
      (toggleSelected
         (setSelectedItem (_currentRow w * _cols w + _currentCol w) w)).
Proof.
  intros Hkey Hed Hrow Hcol. unfold handleKeyDown. cbn [orb].
  assert (Hact : keyAction key w = (true, true, true, _currentRow w, _currentCol w)).
  { destruct key; try discriminate; unfold keyAction;
      (destruct (_currentRow w >=? 0) eqn:E1; [| rewrite Z.geb_leb in E1; apply Z.leb_gt in E1; lia]);
      (destruct (_currentCol w >=? 0) eqn:E2; [| rewrite Z.geb_leb in E2; apply Z.leb_gt in E2; lia]);
      reflexivity. }
  rewrite Hact, Hed. cbn [andb].
  now destruct w.
Qed.

(** X14. Return or Enter without Control or Alt, on an editable widget
    whose lists cover the grid and whose cursor is on a cell, is handled,
    selects the cursor's cell, inverts exactly that entry of the state list
    and of the changed list, leaves every other entry, sends one command
    carrying the cell's index and marks the widget dirty; the cursor stays. *)
Theorem enter_flips_the_cursor_cell (key : StellaKey) (w : ToggleWidget.t) :
  is_enter key = true ->
  laid_out w ->
  _editable w = true ->
  0 <= _currentRow w < _rows w -> 0 <= _currentCol w < _cols w ->
  exists w',
    handleKeyDown key false false w = Some (true, w') /\
    _selectedItem w' = _currentRow w * _cols w + _currentCol w /\
    (forall n,
        nth_error (_stateList w') n =
          if Nat.eqb n (Z.to_nat (_selectedItem w'))
          then option_map negb (nth_error (_stateList w) n)
          else nth_error (_stateList w) n) /\
    (forall n,
        nth_error (_changedList w') n =
          if Nat.eqb n (Z.to_nat (_selectedItem w'))
          then option_map negb (nth_error (_changedList w) n)
          else nth_error (_changedList w) n) /\
    sent w' = sent w ++ [_selectedItem w'] /\
    dirty w' = true /\
    _currentRow w' = _currentRow w /\ _currentCol w' = _currentCol w.
Proof.
  intros Hkey (Hr & Hc & _ & _ & Hst & Hch) Hed Hrow Hcol.
  rewrite enter_toggles by (assumption || lia).
  set (w2 := setSelectedItem (_currentRow w * _cols w + _currentCol w) w).
  destruct (toggleSelected_defined w2) as [w3 Hw3];
    [subst w2; cbn; nia | subst w2; cbn; nia |].
  rewrite Hw3. cbn [option_map].
  destruct (toggleSelected_spec _ _ Hw3) as (Hfst & Hfch & Hsent & _).
  destruct (toggleSelected_same _ _ Hw3) as (_ & Hr3 & Hc3 & Hs3).
  exists (setDirty w3). split; [reflexivity |].
  subst w2. cbn in *. rewrite Hs3.
  repeat split; auto using flip_nth_lookup.
Qed.

Lemma enter_flips_the_cursor_cell_witness :
  exists w',
    handleKeyDown KBDK_KP_ENTER false false grid_2x8 = Some (true, w') /\
    _selectedItem w' = 0 /\
    nth_error (_stateList w') 0 = Some true /\
    nth_error (_stateList w') 1 = Some false /\
    sent w' = [0].
Proof.
  destruct (enter_flips_the_cursor_cell KBDK_KP_ENTER grid_2x8)
    as (w' & Hkey & Hsel & Hstate & _ & Hsent & _); try by_computation.
  exists w'. split; [exact Hkey |]. split; [exact Hsel |].
  rewrite Hsent, (Hstate 0%nat), (Hstate 1%nat), Hsel. repeat split.
Defined.

(** X16. Pressing Return or Enter twice on the same cell (editable widget,
    lists covering the grid, cursor on a cell) puts the state list and the
    changed list back as they were, the changed mark included, and sends
    the command for that cell twice. *)
Theorem enter_twice_restores (key1 key2 : StellaKey) (w : ToggleWidget.t) :
  is_enter key1 = true -> is_enter key2 = true ->
  laid_out w ->
  _editable w = true ->
  0 <= _currentRow w < _rows w -> 0 <= _currentCol w < _cols w ->
  exists w1 w2,
    handleKeyDown key1 false false w = Some (true, w1) /\
    handleKeyDown key2 false false w1 = Some (true, w2) /\
    _stateList w2 = _stateList w /\ _changedList w2 = _changedList w /\
    sent w2 =
      sent w ++ [_currentRow w * _cols w + _currentCol w;
                 _currentRow w * _cols w + _currentCol w].
Proof.
  intros Hk1 Hk2 (Hr & Hc & _ & _ & Hst & Hch) Hed Hrow Hcol.
  rewrite enter_toggles by (assumption || lia).
  set (i := _currentRow w * _cols w + _currentCol w).
  destruct (toggleSelected_defined (setSelectedItem i w)) as [w3 Hw3];
    [subst i; cbn; nia | subst i; cbn; nia |].
  rewrite Hw3. cbn [option_map].
  destruct (toggleSelected_spec _ _ Hw3) as (Hfst & Hfch & Hsent & Hw3eq).
  cbn in Hfst, Hfch, Hsent.
  exists (setDirty w3). eexists. split; [reflexivity |].
  rewrite enter_toggles; [| assumption | rewrite Hw3eq; cbn; assumption
                          | rewrite Hw3eq; cbn; lia | rewrite Hw3eq; cbn; lia].
  assert (Hi : _currentRow (setDirty w3) * _cols (setDirty w3) +
               _currentCol (setDirty w3) = i)
    by (rewrite Hw3eq; reflexivity).
  rewrite Hi.
  unfold toggleSelected, flip_at. cbn.
  destruct (i <? 0) eqn:Ei; [apply Z.ltb_lt in Ei; subst i; nia |].
  rewrite (flip_nth_twice _ _ _ Hfst), (flip_nth_twice _ _ _ Hfch).
  cbn [option_map]. split; [reflexivity |]. cbn.
  rewrite Hsent, <- app_assoc. repeat split.
Qed.

Lemma enter_twice_restores_witness :
  exists w1 w2,
    handleKeyDown KBDK_RETURN false false grid_2x8 = Some (true, w1) /\
    handleKeyDown KBDK_KP_ENTER false false w1 = Some (true, w2) /\
    _stateList w2 = _stateList grid_2x8 /\
    _changedList w2 = _changedList grid_2x8 /\
    sent w2 = [0; 0].
Proof.
  apply (enter_twice_restores KBDK_RETURN KBDK_KP_ENTER grid_2x8);
    by_computation.
Defined.

(** X15. A mouse press followed by a release at the same position with the
    click count the widget asks for (enabled, editable, lists covering the
    grid, pointer inside) selects the cell under the pointer, inverts
    exactly that entry of the state list and of the changed list and sends
    one command carrying the cell's index. *)
Theorem click_flips_the_cell_under_the_pointer (x y : Z) (w : ToggleWidget.t) :
  laid_out w ->
  isEnabled w = true -> _editable w = true ->
  0 <= x -> 1 <= y ->
  exists item w1 w2,
    findItem x y w = Some item /\
    handleMouseDown x y w = Some w1 /\
    handleMouseUp x y (_clicksToChange w) w1 = Some w2 /\
    _selectedItem w2 = item /\
    (forall n,
        nth_error (_stateList w2) n =
          if Nat.eqb n (Z.to_nat item)
          then option_map negb (nth_error (_stateList w) n)
          else nth_error (_stateList w) n) /\
    (forall n,
        nth_error (_changedList w2) n =
          if Nat.eqb n (Z.to_nat item)
          then option_map negb (nth_error (_changedList w) n)
          else nth_error (_changedList w) n) /\
    sent w2 = sent w ++ [item].
Proof.
  intros (Hr & Hc & Hh & Hw & Hst & Hch) Hen Hed Hx Hy.
  destruct (findItem_in_grid x y w Hr Hc Hh Hw Hx Hy) as (item & Hitem & Hrange).
  exists item.
  assert (Hdown : exists w1,
             handleMouseDown x y w = Some w1 /\ _selectedItem w1 = item /\
             findItem x y w1 = Some item /\
             _stateList w1 = _stateList w /\ _changedList w1 = _changedList w /\
             sent w1 = sent w /\ isEnabled w1 = true /\ _editable w1 = true /\
             _clicksToChange w1 = _clicksToChange w).
  { unfold handleMouseDown. rewrite Hen, Hitem. cbn [negb].
    destruct (item >? Z.of_nat (length (_stateList w)) - 1) eqn:E;
      [rewrite Z.gtb_ltb in E; apply Z.ltb_lt in E; lia |].
    destruct (_selectedItem w =? item) eqn:Es; cbn [negb].
    - apply Z.eqb_eq in Es. exists w. repeat split; assumption.
    - destruct (_cols w =? 0) eqn:Ec; [apply Z.eqb_eq in Ec; lia |].
      eexists. split; [reflexivity |]. cbn. repeat split; assumption. }
  destruct Hdown as (w1 & Hw1 & Hs1 & Hitem1 & Hst1 & Hch1 & Hsent1 & Hen1 & Hed1 & Hcc1).
  exists w1.
  destruct (toggleSelected_defined w1) as [w3 Hw3];
    [rewrite Hs1, Hst1; lia | rewrite Hs1, Hch1; lia |].
  exists (setDirty w3). split; [assumption |]. split; [assumption |].
  unfold handleMouseUp.
  rewrite Hen1, Hed1, Hitem1, Hs1, <- Hcc1, !Z.eqb_refl, Hw3. cbn.
  split; [reflexivity |].
  destruct (toggleSelected_spec _ _ Hw3) as (Hfst & Hfch & Hsent & _).
  destruct (toggleSelected_same _ _ Hw3) as (_ & _ & _ & Hs3).
  rewrite Hs1 in *. rewrite Hst1 in Hfst. rewrite Hch1 in Hfch.
  rewrite Hsent1 in Hsent.
  repeat split; auto using flip_nth_lookup.
Qed.

Lemma click_flips_the_cell_under_the_pointer_witness :
  exists item w1 w2,
    findItem 30 15 grid_2x8 = Some item /\
    handleMouseDown 30 15 grid_2x8 = Some w1 /\
    handleMouseUp 30 15 1 w1 = Some w2 /\
    _selectedItem w2 = item /\
    sent w2 = [item].
Proof.
  destruct (click_flips_the_cell_under_the_pointer 30 15 grid_2x8)
    as (item & w1 & w2 & Hitem & Hdown & Hup & Hsel & _ & _ & Hsent);
    try by_computation.
  exists item, w1, w2. auto.
Defined.
